(** * DEBOXE / ECLIPSE: the Pix payment lifecycle client

    A shallow embedding of [src/services/amploPayService.ts] (the gateway
    client [AmploPayService]), of the mock service [MockPaymentService] and of
    the browser event loop they run on (timers, promises, fetch).

    - Objects live in a heap and the [payments] map holds references, as a
      JavaScript [Map<string, PaymentData>] does.
    - Service methods are programs of a small free monad [Async] whose
      operations are the effects the TypeScript code performs ([this.*]
      accesses, [fetch], [setTimeout], listener calls, ...).
    - [run] executes one call to completion with nothing interleaved;
      [step] is the event loop, where timers and suspended calls interleave.
    - [console.log] output is not modelled. *)

From Stdlib Require Import ZArith String List Bool Lia.
From stdpp Require Import base option list gmap strings pretty.

Local Open Scope string_scope.

(** ** Data model ([types/payment.ts]) *)

(** A JavaScript [number]; the service only stores and copies amounts. *)
Abbreviation number := Z (only parsing).

(** A [Date]: built from the clock (epoch milliseconds) or by
    [new Date(isoString)], which is kept unparsed. *)
Inductive Date :=
| DateOfMs (ms : Z)
| DateOfString (s : string).

Module TicketSelection.
Record t := mk {
  type : string;
  quantity : number;
  unitPrice : number;
  totalPrice : number }.
End TicketSelection.

Module PaymentData.
(** [status] is declared as a union of four literals, but
    [updatePaymentStatus] stores any string through a cast, so the field
    holds a string. *)
Record t := mk {
  id : string;
  amount : number;
  description : string;
  tickets : list TicketSelection.t;
  status : string;
  pixCode : option string;
  qrCodeImage : option string;
  createdAt : Date;
  expiresAt : option Date }.

(** [payment.status = s] *)
Definition set_status (s : string) (p : t) : t :=
  mk (id p) (amount p) (description p) (tickets p) s
     (pixCode p) (qrCodeImage p) (createdAt p) (expiresAt p).

(** Equality of every field but [status]. *)
Definition same_but_status (p q : t) : Prop :=
  id p = id q /\ amount p = amount q /\ description p = description q /\
  tickets p = tickets q /\ pixCode p = pixCode q /\
  qrCodeImage p = qrCodeImage q /\ createdAt p = createdAt q /\
  expiresAt p = expiresAt q.
End PaymentData.

Module CreatePaymentRequest.
Record t := mk {
  amount : number;
  description : string;
  tickets : list TicketSelection.t;
  customerEmail : option string;
  customerName : option string }.
End CreatePaymentRequest.

Module AmploPayResponse.
Record t := mk {
  id : string;
  amount : number;
  status : string;
  pix_code : string;
  qr_code_url : option string;
  expires_at : string;
  created_at : string }.
End AmploPayResponse.

(** ** JavaScript values the code looks at *)

(** A thrown value: an [Error] instance with its [name] and [message], or
    anything else. *)
Inductive Thrown :=
| ErrorObj (name message : string)
| NotAnError (shown : string).

(** [new Error(message)] *)
Definition Error (message : string) : Thrown := ErrorObj "Error" message.

(** Truthiness of a string and of an optional string. *)
Definition truthy (s : string) : bool :=
  match s with EmptyString => false | String _ _ => true end.

Definition truthy_opt (o : option string) : bool :=
  match o with Some s => truthy s | None => false end.

(** [hay.includes(needle)] *)
Definition includes (needle hay : string) : bool :=
  match String.index 0 needle hay with Some _ => true | None => false end.

(** ** HTTP *)

Record RequestBody := {
  rb_amount : number;
  rb_description : string;
  rb_payment_method : string;
  rb_expires_in : Z;
  rb_callback_url : string;
  rb_customer : option (string * option string);
  rb_metadata_tickets : list TicketSelection.t;
  rb_metadata_source : string }.

Record Request := {
  url : string;
  method : string;
  headers : list (string * string);
  body : option RequestBody }.

(** The fields of an error body that [createPayment] reads. *)
Record ErrorData := {
  ed_message : option string;
  ed_error : option string }.

(** A [Response]. [response.json()] is read at two types: as an
    [AmploPayResponse] on the success path and as error data on the failure
    path; [None] is a rejected read. *)
Record Response := {
  status : Z;
  statusText : string;
  json_payment : option AmploPayResponse.t;
  json_error : option ErrorData }.

(** [response.ok] *)
Definition ok (r : Response) : bool :=
  (200 <=? status r)%Z && (status r <=? 299)%Z.

(** What the network does with one [fetch]: answer or reject after a
    latency in milliseconds, or never settle. *)
Inductive NetOutcome :=
| Responds (latency : Z) (r : Response)
| Rejects (latency : Z) (e : Thrown)
| NoAnswer.

(** The rejection of a [fetch] whose [AbortController] was aborted. *)
Definition AbortError : Thrown :=
  ErrorObj "AbortError" "signal is aborted without reason".

(** One [fetch] raced against [setTimeout(() => controller.abort(), timeout)]:
    the result and the time it takes. *)
Definition settle (timeout : Z) (o : NetOutcome) : (Thrown + Response) * Z :=
  match o with
  | Responds t r =>
      if (Z.max 0 t <? timeout)%Z then (inr r, Z.max 0 t)
      else (inl AbortError, timeout)
  | Rejects t e =>
      if (Z.max 0 t <? timeout)%Z then (inl e, Z.max 0 t)
      else (inl AbortError, timeout)
  | NoAnswer => (inl AbortError, timeout)
  end.

(** ** Effects and the [Async] monad *)

(** A status listener is client code; it is named, and each call of it is
    logged. Listeners return normally and do not call back into the
    service. *)
Abbreviation Callback := string (only parsing).

(** References into the heap and timer ids are numbers. *)
Abbreviation loc := nat (only parsing).
Abbreviation handle := nat (only parsing).

(** The closures the services hand to [setInterval] and [setTimeout]. *)
Inductive TimerAction :=
| PollTick (paymentId : string)
| StopPolling (pollInterval : handle)
| MockApprove (paymentId : string).

Inductive Eff : Type -> Type :=
| GetApiKey : Eff string
| GetBaseUrl : Eff string
| PaymentsGet (paymentId : string) : Eff (option loc)
| PaymentsSet (paymentId : string) (l : loc) : Eff unit
| CallbacksGet (paymentId : string) : Eff (option Callback)
| CallbacksSet (paymentId : string) (cb : Callback) : Eff unit
| NewObject (p : PaymentData.t) : Eff loc
| ReadStatus (l : loc) : Eff string
| WriteStatus (l : loc) (s : string) : Eff unit
| Invoke (cb : Callback) (status : string) : Eff unit
| WindowOrigin : Eff (option string)
| DispatchEvent (paymentId status : string) : Eff unit
| Fetch (req : Request) (timeout : Z) : Eff (Thrown + Response)
| Delay (ms : Z) : Eff unit
| JsonPayment (r : Response) : Eff (option AmploPayResponse.t)
| JsonError (r : Response) : Eff (option ErrorData)
| ToDataURL (text : string) : Eff (option string)
| SetTimeout (a : TimerAction) (ms : Z) : Eff handle
| SetInterval (a : TimerAction) (ms : Z) : Eff handle
| ClearInterval (h : handle) : Eff unit
| UuidV4 : Eff string
| RandomBelow (n : nat) : Eff nat
| DateNow : Eff Z.

(** Effects behind an [await]: the call is suspended and resumed later. *)
Definition suspends {X} (e : Eff X) : bool :=
  match e with
  | Fetch _ _ | Delay _ | JsonPayment _ | JsonError _ | ToDataURL _ => true
  | _ => false
  end.

Inductive Async (R : Type) : Type :=
| Ret (r : R)
| Throw (e : Thrown)
| Vis {X : Type} (e : Eff X) (k : X -> Async R).

Arguments Ret {R} r.
Arguments Throw {R} e.
Arguments Vis {R X} e k.

Fixpoint bind {A B} (m : Async A) (f : A -> Async B) : Async B :=
  match m with
  | Ret a => f a
  | Throw e => Throw e
  | Vis e k => Vis e (fun x => bind (k x) f)
  end.

(** [try { m } catch (error) { h error }] *)
Fixpoint try_catch {A} (m : Async A) (h : Thrown -> Async A) : Async A :=
  match m with
  | Ret a => Ret a
  | Throw e => h e
  | Vis e k => Vis e (fun x => try_catch (k x) h)
  end.

Definition perform {X} (e : Eff X) : Async X := Vis e Ret.

Declare Scope async_scope.
Delimit Scope async_scope with async.
Notation "'let!' x ':=' m 'in' k" := (bind m (fun x => k))
  (at level 10, x name, m at level 100, k at level 200) : async_scope.
Notation "m ;; k" := (bind m (fun _ => k))
  (at level 100, k at level 200, right associativity) : async_scope.
Local Open Scope async_scope.

(** ** The world: service instance, heap, event loop and environment *)

Inductive Event :=
| EvListener (cb : Callback) (status : string)
| EvCustomEvent (paymentId status : string)
| EvFetch (req : Request) (started settled : Z)
| EvDelay (ms : Z)
| EvUnhandledRejection (e : Thrown).

Record Timer := {
  t_handle : handle;
  t_due : Z;
  t_period : option Z;
  t_action : TimerAction }.

(** What the page cannot control: the [window] global (its origin, absent
    outside a browser), the network, the QR encoder, and the random sources. *)
Record Env := {
  window_origin : option string;
  network : nat -> NetOutcome;
  qrcode : string -> option string;
  uuid : nat -> string;
  random : nat -> nat }.

Record World := {
  apiKey : string;
  baseUrl : string;
  payments : gmap string loc;
  statusCallbacks : gmap string Callback;
  heap : list PaymentData.t;
  now : Z;
  timers : list Timer;
  next_handle : handle;
  tasks : list (Z * Async unit);
  trace : list Event;
  env : Env;
  fetches : nat;
  uuids : nat;
  randoms : nat }.

Definition set_payments (f : gmap string loc -> gmap string loc) (w : World) :=
  {| apiKey := apiKey w; baseUrl := baseUrl w; payments := f (payments w);
     statusCallbacks := statusCallbacks w; heap := heap w; now := now w;
     timers := timers w; next_handle := next_handle w; tasks := tasks w;
     trace := trace w; env := env w; fetches := fetches w; uuids := uuids w;
     randoms := randoms w |}.

Definition set_statusCallbacks
    (f : gmap string Callback -> gmap string Callback) (w : World) :=
  {| apiKey := apiKey w; baseUrl := baseUrl w; payments := payments w;
     statusCallbacks := f (statusCallbacks w); heap := heap w; now := now w;
     timers := timers w; next_handle := next_handle w; tasks := tasks w;
     trace := trace w; env := env w; fetches := fetches w; uuids := uuids w;
     randoms := randoms w |}.

Definition set_heap (f : list PaymentData.t -> list PaymentData.t) (w : World) :=
  {| apiKey := apiKey w; baseUrl := baseUrl w; payments := payments w;
     statusCallbacks := statusCallbacks w; heap := f (heap w); now := now w;
     timers := timers w; next_handle := next_handle w; tasks := tasks w;
     trace := trace w; env := env w; fetches := fetches w; uuids := uuids w;
     randoms := randoms w |}.

Definition set_now (f : Z -> Z) (w : World) :=
  {| apiKey := apiKey w; baseUrl := baseUrl w; payments := payments w;
     statusCallbacks := statusCallbacks w; heap := heap w; now := f (now w);
     timers := timers w; next_handle := next_handle w; tasks := tasks w;
     trace := trace w; env := env w; fetches := fetches w; uuids := uuids w;
     randoms := randoms w |}.

Definition set_timers (f : list Timer -> list Timer) (w : World) :=
  {| apiKey := apiKey w; baseUrl := baseUrl w; payments := payments w;
     statusCallbacks := statusCallbacks w; heap := heap w; now := now w;
     timers := f (timers w); next_handle := next_handle w; tasks := tasks w;
     trace := trace w; env := env w; fetches := fetches w; uuids := uuids w;
     randoms := randoms w |}.

Definition set_next_handle (f : handle -> handle) (w : World) :=
  {| apiKey := apiKey w; baseUrl := baseUrl w; payments := payments w;
     statusCallbacks := statusCallbacks w; heap := heap w; now := now w;
     timers := timers w; next_handle := f (next_handle w); tasks := tasks w;
     trace := trace w; env := env w; fetches := fetches w; uuids := uuids w;
     randoms := randoms w |}.

Definition set_tasks
    (f : list (Z * Async unit) -> list (Z * Async unit)) (w : World) :=
  {| apiKey := apiKey w; baseUrl := baseUrl w; payments := payments w;
     statusCallbacks := statusCallbacks w; heap := heap w; now := now w;
     timers := timers w; next_handle := next_handle w; tasks := f (tasks w);
     trace := trace w; env := env w; fetches := fetches w; uuids := uuids w;
     randoms := randoms w |}.

Definition log (ev : Event) (w : World) :=
  {| apiKey := apiKey w; baseUrl := baseUrl w; payments := payments w;
     statusCallbacks := statusCallbacks w; heap := heap w; now := now w;
     timers := timers w; next_handle := next_handle w; tasks := tasks w;
     trace := (trace w ++ [ev])%list; env := env w; fetches := fetches w;
     uuids := uuids w; randoms := randoms w |}.

Definition count_fetch (w : World) :=
  {| apiKey := apiKey w; baseUrl := baseUrl w; payments := payments w;
     statusCallbacks := statusCallbacks w; heap := heap w; now := now w;
     timers := timers w; next_handle := next_handle w; tasks := tasks w;
     trace := trace w; env := env w; fetches := S (fetches w); uuids := uuids w;
     randoms := randoms w |}.

Definition count_uuid (w : World) :=
  {| apiKey := apiKey w; baseUrl := baseUrl w; payments := payments w;
     statusCallbacks := statusCallbacks w; heap := heap w; now := now w;
     timers := timers w; next_handle := next_handle w; tasks := tasks w;
     trace := trace w; env := env w; fetches := fetches w; uuids := S (uuids w);
     randoms := randoms w |}.

Definition count_random (w : World) :=
  {| apiKey := apiKey w; baseUrl := baseUrl w; payments := payments w;
     statusCallbacks := statusCallbacks w; heap := heap w; now := now w;
     timers := timers w; next_handle := next_handle w; tasks := tasks w;
     trace := trace w; env := env w; fetches := fetches w; uuids := uuids w;
     randoms := S (randoms w) |}.

(** [setTimeout] and [setInterval] draw their ids from one pool, and
    [clearInterval] cancels whichever timer has the id. A negative delay
    counts as zero. *)
Definition add_timer (period : option Z) (a : TimerAction) (ms : Z) (w : World)
    : World * handle :=
  let h := next_handle w in
  let t := {| t_handle := h; t_due := (now w + Z.max 0 ms)%Z;
              t_period := period; t_action := a |} in
  (set_next_handle S (set_timers (fun ts => (ts ++ [t])%list) w), h).

Definition remove_timer (h : handle) (ts : list Timer) : list Timer :=
  filter (fun t => t_handle t <> h) ts.

(** The record a reference points to, and the record cached under an id. *)
Definition deref (w : World) (l : loc) : option PaymentData.t := heap w !! l.

Definition cached (w : World) (paymentId : string) : option PaymentData.t :=
  payments w !! paymentId ≫= deref w.

(** [handle_eff e w]: the world after the effect, its result, and how long
    the caller waits for it (zero unless the effect suspends). *)
Definition handle_eff {X} (e : Eff X) (w : World) : World * X * Z :=
  match e in Eff X return World * X * Z with
  | GetApiKey => (w, apiKey w, 0%Z)
  | GetBaseUrl => (w, baseUrl w, 0%Z)
  | PaymentsGet i => (w, payments w !! i, 0%Z)
  | PaymentsSet i l => (set_payments (insert i l) w, tt, 0%Z)
  | CallbacksGet i => (w, statusCallbacks w !! i, 0%Z)
  | CallbacksSet i cb => (set_statusCallbacks (insert i cb) w, tt, 0%Z)
  | NewObject p => (set_heap (fun h => (h ++ [p])%list) w, length (heap w), 0%Z)
  | ReadStatus l =>
      (w, default "" (PaymentData.status <$> heap w !! l), 0%Z)
  | WriteStatus l s =>
      (set_heap (alter (PaymentData.set_status s) l) w, tt, 0%Z)
  | Invoke cb s => (log (EvListener cb s) w, tt, 0%Z)
  | WindowOrigin => (w, window_origin (env w), 0%Z)
  | DispatchEvent i s => (log (EvCustomEvent i s) w, tt, 0%Z)
  | Fetch req timeout =>
      let '(r, d) := settle timeout (network (env w) (fetches w)) in
      (log (EvFetch req (now w) (now w + d)) (count_fetch w), r, d)
  | Delay ms => (log (EvDelay ms) w, tt, Z.max 0 ms)
  | JsonPayment r => (w, json_payment r, 0%Z)
  | JsonError r => (w, json_error r, 0%Z)
  | ToDataURL text => (w, qrcode (env w) text, 0%Z)
  | SetTimeout a ms => let '(w', h) := add_timer None a ms w in (w', h, 0%Z)
  | SetInterval a ms =>
      let '(w', h) := add_timer (Some (Z.max 0 ms)) a ms w in (w', h, 0%Z)
  | ClearInterval h => (set_timers (remove_timer h) w, tt, 0%Z)
  | UuidV4 => (count_uuid w, uuid (env w) (uuids w), 0%Z)
  | RandomBelow n => (count_random w, random (env w) (randoms w) mod n, 0%Z)
  | DateNow => (w, now w, 0%Z)
  end.

(** One call run to completion with nothing interleaved: every [await]
    resumes as soon as its effect settles, and the clock advances by the
    time waited. *)
Fixpoint run {R} (m : Async R) (w : World) : World * (Thrown + R) :=
  match m with
  | Ret r => (w, inr r)
  | Throw e => (w, inl e)
  | Vis e k =>
      let '(w', x, d) := handle_eff e w in
      run (k x) (if suspends e then set_now (fun t => (t + d)%Z) w' else w')
  end.

(** ** [AmploPayService] ([src/services/amploPayService.ts]) *)

Module AmploPayService.

Definition maxRetries : nat := 3.
Definition retryDelay : Z := 1000.

Definition timeoutError : Thrown :=
  Error "Timeout: A conexão demorou muito para responder. Verifique sua internet.".
Definition corsError : Thrown :=
  Error "Erro de CORS: Configure https://localhost:5173 nas origens permitidas no painel da Amplo Pay.".
Definition connectionError : Thrown :=
  Error "Erro de conexão: Não foi possível conectar com o servidor de pagamentos.".

(** What the [catch] of the last attempt throws. *)
Definition lastAttemptError (error : Thrown) : Thrown :=
  match error with
  | ErrorObj name message =>
      if String.eqb name "AbortError" then timeoutError
      else if includes "CORS" message || includes "cors" message then corsError
      else if includes "fetch" message then connectionError
      else error
  | NotAnError _ => error
  end.

(** The [for (let i = 0; i <= retries; i++)] loop of [fetchWithRetry],
    with [n] iterations left. Each attempt is a [fetch] raced against a
    15000 ms abort timer; the request also carries [mode: 'cors'] and
    [credentials: 'omit']. *)
Fixpoint attempts (req : Request) (retries n i : nat) : Async Response :=
  match n with
  | O => Throw (Error "Todas as tentativas falharam")
  | S n' =>
      let! r := perform (Fetch req 15000) in
      match r with
      | inr response => Ret response
      | inl error =>
          if (i =? retries)%nat then Throw (lastAttemptError error)
          else
            perform (Delay (retryDelay * (Z.of_nat i + 1))) ;;
            attempts req retries n' (S i)
      end
  end.

Definition fetchWithRetry (req : Request) (retries : nat) : Async Response :=
  attempts req retries (S retries) 0.

Definition generateQRCodeImage (pixCode : string) : Async string :=
  let! r := perform (ToDataURL pixCode) in
  match r with
  | Some image => Ret image
  | None => Throw (Error "Erro ao gerar QR Code")
  end.

Definition missingKeyOnCreate : Thrown :=
  Error "API Key da Amplo Pay não configurada. Configure VITE_AMPLO_PAY_API_KEY no arquivo .env".
Definition invalidKeyError : Thrown :=
  Error "API Key inválida. Verifique sua configuração no arquivo .env".
Definition forbiddenError : Thrown :=
  Error "Acesso negado. Verifique as permissões da sua API Key".
Definition corsStatusError : Thrown :=
  Error "Erro de CORS: Configure https://localhost:5173 nas origens permitidas no painel da Amplo Pay".
Definition serverError : Thrown :=
  Error "Erro interno da Amplo Pay. Tente novamente em alguns minutos".
Definition internalError : Thrown :=
  Error "❌ Erro interno do servidor. Tente novamente em alguns instantes.".

(** [a || b] on optional strings, ending in a string. *)
Definition or_else (a : option string) (b : string) : string :=
  match a with
  | Some s => if truthy s then s else b
  | None => b
  end.

(** The [if (!response.ok)] block of [createPayment]. *)
Definition rejectResponse {A} (response : Response) : Async A :=
  let errorMessage :=
    "Erro " ++ pretty (status response) ++ ": " ++ statusText response in
  let! errorData := perform (JsonError response) in
  let errorMessage :=
    match errorData with
    | Some d => or_else (ed_message d) (or_else (ed_error d) errorMessage)
    | None => errorMessage
    end in
  if (status response =? 401)%Z then Throw invalidKeyError
  else if (status response =? 403)%Z then Throw forbiddenError
  else if (status response =? 0)%Z then Throw corsStatusError
  else if (status response >=? 500)%Z then Throw serverError
  else Throw (Error ("Erro ao processar pagamento: " ++ errorMessage)).

Definition createPayment (request : CreatePaymentRequest.t) : Async loc :=
  let! apiKey := perform GetApiKey in
  if negb (truthy apiKey) then Throw missingKeyOnCreate
  else
    try_catch
      (let! baseUrl := perform GetBaseUrl in
       let! origin := perform WindowOrigin in
       match origin with
       | None => Throw (ErrorObj "ReferenceError" "window is not defined")
       | Some origin =>
         let requestBody :=
           {| rb_amount := CreatePaymentRequest.amount request;
              rb_description := CreatePaymentRequest.description request;
              rb_payment_method := "pix";
              rb_expires_in := 900;
              rb_callback_url := origin ++ "/webhook/amplo-pay";
              rb_customer :=
                match CreatePaymentRequest.customerEmail request with
                | Some email =>
                    if truthy email
                    then Some (email, CreatePaymentRequest.customerName request)
                    else None
                | None => None
                end;
              rb_metadata_tickets := CreatePaymentRequest.tickets request;
              rb_metadata_source := "deboxe-eclipse" |} in
         let! response :=
           fetchWithRetry
             {| url := baseUrl ++ "/payments";
                method := "POST";
                headers :=
                  [("Content-Type", "application/json");
                   ("Authorization", "Bearer " ++ apiKey);
                   ("Accept", "application/json");
                   ("User-Agent", "DEBOXE-ECLIPSE/1.0")];
                body := Some requestBody |}
             maxRetries in
         if negb (ok response) then rejectResponse response
         else
           let! parsed := perform (JsonPayment response) in
           match parsed with
           | None => Throw (ErrorObj "SyntaxError" "Unexpected end of JSON input")
           | Some amploPayResponse =>
             let qr_code_url := AmploPayResponse.qr_code_url amploPayResponse in
             let pix_code := AmploPayResponse.pix_code amploPayResponse in
             let! qrCodeImage :=
               if negb (truthy_opt qr_code_url) && truthy pix_code
               then (let! image := generateQRCodeImage pix_code in Ret (Some image))
               else Ret qr_code_url in
             let paymentData :=
               {| PaymentData.id := AmploPayResponse.id amploPayResponse;
                  PaymentData.amount := AmploPayResponse.amount amploPayResponse;
                  PaymentData.description := CreatePaymentRequest.description request;
                  PaymentData.tickets := CreatePaymentRequest.tickets request;
                  PaymentData.status := AmploPayResponse.status amploPayResponse;
                  PaymentData.pixCode := Some pix_code;
                  PaymentData.qrCodeImage := qrCodeImage;
                  PaymentData.createdAt :=
                    DateOfString (AmploPayResponse.created_at amploPayResponse);
                  PaymentData.expiresAt :=
                    Some (DateOfString (AmploPayResponse.expires_at amploPayResponse)) |} in
             let! l := perform (NewObject paymentData) in
             perform (PaymentsSet (PaymentData.id paymentData) l) ;;
             Ret l
           end
       end)
      (fun error =>
         match error with
         | ErrorObj _ _ => Throw error
         | NotAnError _ => Throw internalError
         end).

Definition createPixPayment (amount : number) (description : string)
    (tickets : list TicketSelection.t) : Async loc :=
  createPayment
    {| CreatePaymentRequest.amount := amount;
       CreatePaymentRequest.description := description;
       CreatePaymentRequest.tickets := tickets;
       CreatePaymentRequest.customerEmail := None;
       CreatePaymentRequest.customerName := None |}.

Definition missingKeyOnStatus : Thrown :=
  Error "API Key da Amplo Pay não configurada".

Definition statusRequest (baseUrl apiKey paymentId : string) : Request :=
  {| url := baseUrl ++ "/payments/" ++ paymentId;
     method := "GET";
     headers := [("Authorization", "Bearer " ++ apiKey);
                 ("Accept", "application/json")];
     body := None |}.

Definition getPaymentStatus (paymentId : string) : Async (option loc) :=
  let! apiKey := perform GetApiKey in
  if negb (truthy apiKey) then Throw missingKeyOnStatus
  else
    try_catch
      (let! baseUrl := perform GetBaseUrl in
       let! response :=
         fetchWithRetry (statusRequest baseUrl apiKey paymentId) maxRetries in
       if negb (ok response) then perform (PaymentsGet paymentId)
       else
         let! parsed := perform (JsonPayment response) in
         match parsed with
         | None => Throw (ErrorObj "SyntaxError" "Unexpected end of JSON input")
         | Some amploPayResponse =>
           let! existingPayment := perform (PaymentsGet paymentId) in
           match existingPayment with
           | Some l =>
               perform (WriteStatus l (AmploPayResponse.status amploPayResponse)) ;;
               perform (PaymentsSet paymentId l) ;;
               Ret (Some l)
           | None => Ret None
           end
         end)
      (fun _ => perform (PaymentsGet paymentId)).

Definition onStatusUpdate (paymentId : string) (callback : Callback)
    : Async unit :=
  perform (CallbacksSet paymentId callback).

Definition updatePaymentStatus (paymentId status : string) : Async unit :=
  let! callback := perform (CallbacksGet paymentId) in
  match callback with
  | Some cb => perform (Invoke cb status)
  | None => Ret tt
  end ;;
  let! payment := perform (PaymentsGet paymentId) in
  match payment with
  | Some l =>
      perform (WriteStatus l status) ;;
      perform (PaymentsSet paymentId l)
  | None => Ret tt
  end ;;
  let! window := perform WindowOrigin in
  match window with
  | Some _ => perform (DispatchEvent paymentId status)
  | None => Ret tt
  end.

Definition processWebhook (paymentId status : string) : Async unit :=
  updatePaymentStatus paymentId status.

Definition terminal (status : string) : bool :=
  String.eqb status "paid" || String.eqb status "failed"
  || String.eqb status "expired".

(** What a poll tick does with the result of [getPaymentStatus]. *)
Definition afterStatus (paymentId : string) (pollInterval : handle)
    (payment : option loc) : Async unit :=
  match payment with
  | Some l =>
      let! status := perform (ReadStatus l) in
      if terminal status then
        perform (ClearInterval pollInterval) ;;
        updatePaymentStatus paymentId status
      else Ret tt
  | None => Ret tt
  end.

(** The callback given to [setInterval] in [startPaymentPolling]. *)
Definition pollTick (paymentId : string) (pollInterval : handle) : Async unit :=
  try_catch
    (let! payment := getPaymentStatus paymentId in
     afterStatus paymentId pollInterval payment)
    (fun _ => Ret tt).

Definition pollingCeiling : Z := 20 * 60 * 1000.

Definition startPaymentPolling (paymentId : string) (intervalMs : Z)
    : Async unit :=
  let! pollInterval := perform (SetInterval (PollTick paymentId) intervalMs) in
  perform (SetTimeout (StopPolling pollInterval) pollingCeiling) ;;
  Ret tt.

End AmploPayService.

(** ** [MockPaymentService], the simulated implementation *)

Module MockPaymentService.

Definition chars : string := "0123456789ABCDEFGHIJKLMNOPQRSTUVWXYZ".

(** [chars.charAt(i)] *)
Definition charAt (i : nat) (s : string) : string :=
  match String.get i s with
  | Some c => String c EmptyString
  | None => EmptyString
  end.

(** [n] rounds of [result += chars.charAt(Math.floor(Math.random() * bound))] *)
Fixpoint appendRandom (n bound : nat) (result : string) : Async string :=
  match n with
  | O => Ret result
  | S n' =>
      let! i := perform (RandomBelow bound) in
      appendRandom n' bound (result ++ charAt i chars)
  end.

Definition generateMockPixCode : Async string :=
  let! result := appendRandom 32 (String.length chars)
                   "00020126580014BR.GOV.BCB.PIX0136" in
  let result :=
    result ++ "5204000053039865802BR5925DEBOXE ECLIPSE PAGAMENTO6009SAO PAULO62070503***6304" in
  appendRandom 4 10 result.

Definition generateQRCodeImage (pixCode : string) : Async string :=
  let! r := perform (ToDataURL pixCode) in
  match r with
  | Some image => Ret image
  | None => Throw (Error "Erro ao gerar QR Code")
  end.

Definition approvalDelay : Z := 10000.

Definition createPayment (request : CreatePaymentRequest.t) : Async loc :=
  perform (Delay 1000) ;;
  let! paymentId := perform UuidV4 in
  let! pixCode := generateMockPixCode in
  let! qrCodeImage := generateQRCodeImage pixCode in
  let! expires := perform DateNow in
  let expiresAt := DateOfMs (expires + 15 * 60 * 1000) in
  let! created := perform DateNow in
  let paymentData :=
    {| PaymentData.id := paymentId;
       PaymentData.amount := CreatePaymentRequest.amount request;
       PaymentData.description := CreatePaymentRequest.description request;
       PaymentData.tickets := CreatePaymentRequest.tickets request;
       PaymentData.status := "pending";
       PaymentData.pixCode := Some pixCode;
       PaymentData.qrCodeImage := Some qrCodeImage;
       PaymentData.createdAt := DateOfMs created;
       PaymentData.expiresAt := Some expiresAt |} in
  let! l := perform (NewObject paymentData) in
  perform (PaymentsSet paymentId l) ;;
  perform (SetTimeout (MockApprove paymentId) approvalDelay) ;;
  Ret l.

Definition createPixPayment (amount : number) (description : string)
    (tickets : list TicketSelection.t) : Async loc :=
  createPayment
    {| CreatePaymentRequest.amount := amount;
       CreatePaymentRequest.description := description;
       CreatePaymentRequest.tickets := tickets;
       CreatePaymentRequest.customerEmail := None;
       CreatePaymentRequest.customerName := None |}.

Definition getPaymentStatus (paymentId : string) : Async (option loc) :=
  perform (PaymentsGet paymentId).

Definition onStatusUpdate (paymentId : string) (callback : Callback)
    : Async unit :=
  perform (CallbacksSet paymentId callback).

Definition updatePaymentStatus (paymentId status : string) : Async unit :=
  let! callback := perform (CallbacksGet paymentId) in
  match callback with
  | Some cb => perform (Invoke cb status)
  | None => Ret tt
  end ;;
  let! payment := perform (PaymentsGet paymentId) in
  match payment with
  | Some l =>
      perform (WriteStatus l status) ;;
      perform (PaymentsSet paymentId l)
  | None => Ret tt
  end ;;
  let! window := perform WindowOrigin in
  match window with
  | Some _ => perform (DispatchEvent paymentId status)
  | None => Ret tt
  end.

Definition startPaymentPolling (paymentId : string) (intervalMs : Z)
    : Async unit :=
  Ret tt.

Definition processWebhook (paymentId status : string) : Async unit :=
  updatePaymentStatus paymentId status.

End MockPaymentService.

(** ** The event loop *)

(** The body of each timer closure; a poll tick knows its own interval id. *)
Definition timer_body (a : TimerAction) (self : handle) : Async unit :=
  match a with
  | PollTick paymentId => AmploPayService.pollTick paymentId self
  | StopPolling pollInterval => perform (ClearInterval pollInterval)
  | MockApprove paymentId => MockPaymentService.updatePaymentStatus paymentId "paid"
  end.

(** Run a call up to its next [await]: there it is parked in [tasks] with
    the time at which it resumes. A call that ends by throwing is an
    unhandled rejection. *)
Fixpoint resume (m : Async unit) (w : World) : World :=
  match m with
  | Ret _ => w
  | Throw e => log (EvUnhandledRejection e) w
  | Vis e k =>
      let '(w', x, d) := handle_eff e w in
      if suspends e
      then set_tasks (fun q => (q ++ [((now w' + d)%Z, k x)])%list) w'
      else resume (k x) w'
  end.

(** Nothing pending is due before [t]. *)
Definition earliest (w : World) (t : Z) : Prop :=
  Forall (fun x => (t <= t_due x)%Z) (timers w) /\
  Forall (fun j => (t <= fst j)%Z) (tasks w).

(** A timer that fires leaves the pool, or is re-armed one period later. *)
Definition rearm (t : Timer) (ts : list Timer) : list Timer :=
  match t_period t with
  | None => remove_timer (t_handle t) ts
  | Some p =>
      (fun x => if decide (t_handle x = t_handle t)
                then {| t_handle := t_handle x; t_due := (t_due x + p)%Z;
                        t_period := t_period x; t_action := t_action x |}
                else x) <$> ts
  end.

Definition fire (t : Timer) (w : World) : World :=
  resume (timer_body (t_action t) (t_handle t))
    (set_timers (rearm t) (set_now (Z.max (t_due t)) w)).

Definition wake (i : nat) (j : Z * Async unit) (w : World) : World :=
  resume (snd j) (set_tasks (delete i) (set_now (Z.max (fst j)) w)).

(** What arrives from outside the service: the page's calls and the webhook
    relay's deliveries. *)
Inductive Call :=
| CallCreatePixPayment (amount : number) (description : string)
    (tickets : list TicketSelection.t)
| CallOnStatusUpdate (paymentId : string) (callback : Callback)
| CallStartPaymentPolling (paymentId : string) (intervalMs : Z)
| CallProcessWebhook (paymentId status : string).

Definition call_body (c : Call) : Async unit :=
  match c with
  | CallCreatePixPayment a d ts => AmploPayService.createPixPayment a d ts ;; Ret tt
  | CallOnStatusUpdate i cb => AmploPayService.onStatusUpdate i cb
  | CallStartPaymentPolling i ms => AmploPayService.startPaymentPolling i ms
  | CallProcessWebhook i s => AmploPayService.processWebhook i s
  end.

(** One turn of the event loop: a due timer fires, a suspended call
    resumes, or a call arrives from outside. Whatever runs is the earliest
    thing pending; ties are resolved either way. *)
Inductive step : World -> World -> Prop :=
| step_timer w t :
    t ∈ timers w -> earliest w (t_due t) -> step w (fire t w)
| step_task w i j :
    tasks w !! i = Some j -> earliest w (fst j) -> step w (wake i j w)
| step_call w c at_ :
    (now w <= at_)%Z -> earliest w at_ ->
    step w (resume (call_body c) (set_now (fun _ => at_) w)).

Inductive steps : World -> World -> Prop :=
| steps_refl w : steps w w
| steps_step w1 w2 w3 : steps w1 w2 -> step w2 w3 -> steps w1 w3.

(** ** Observations *)

(** The listener calls recorded in a trace, in order. *)
Definition listener_calls (tr : list Event) : list (Callback * string) :=
  omap (fun ev => match ev with
                  | EvListener cb s => Some (cb, s)
                  | _ => None
                  end) tr.

Definition cached_status (w : World) (paymentId : string) : option string :=
  PaymentData.status <$> cached w paymentId.

(** References are valid and no record is cached under two ids. *)
Definition sound_cache (w : World) : Prop :=
  (forall i l, payments w !! i = Some l -> l < length (heap w)) /\
  (forall i j l, payments w !! i = Some l -> payments w !! j = Some l -> i = j).

(** A service instance as its constructor leaves it, in a fresh page. *)
Definition initial (key base : string) (e : Env) : World :=
  {| apiKey := key; baseUrl := base; payments := ∅; statusCallbacks := ∅;
     heap := []; now := 0; timers := []; next_handle := 0; tasks := [];
     trace := []; env := e; fetches := 0; uuids := 0; randoms := 0 |}.

(** The world after [updatePaymentStatus(paymentId, status)]. *)
Definition notified (paymentId status : string) (w : World) : World :=
  match statusCallbacks w !! paymentId with
  | Some cb => log (EvListener cb status) w
  | None => w
  end.

Definition stored (paymentId status : string) (w : World) : World :=
  match payments w !! paymentId with
  | Some l =>
      set_payments (insert paymentId l)
        (set_heap (alter (PaymentData.set_status status) l) w)
  | None => w
  end.

Definition broadcast (paymentId status : string) (w : World) : World :=
  match window_origin (env w) with
  | Some _ => log (EvCustomEvent paymentId status) w
  | None => w
  end.


(** ** Footprints of programs *)

(** Every effect a program can perform satisfies [P]. *)
Inductive all_effects (P : forall X, Eff X -> Prop) {R} : Async R -> Prop :=
| all_ret r : all_effects P (Ret r)
| all_throw e : all_effects P (Throw e)
| all_vis X (e : Eff X) k :
    P X e -> (forall x, all_effects P (k x)) -> all_effects P (Vis e k).

(** Effects that change the payment cache: the map or a cached object. *)
Definition writes_cache {X} (e : Eff X) : bool :=
  match e with
  | PaymentsSet _ _ | NewObject _ | WriteStatus _ _ => true
  | _ => false
  end.

(** Effects that change the listener registry. *)
Definition writes_callbacks {X} (e : Eff X) : bool :=
  match e with
  | CallbacksSet _ _ => true
  | _ => false
  end.

(** Effects that only talk to the network or wait. *)
Definition io_only {X} (e : Eff X) : bool :=
  match e with
  | Fetch _ _ | Delay _ => true
  | _ => false
  end.

(** ** Sample worlds *)

Definition sample_env : Env :=
  {| window_origin := Some "https://localhost:5173";
     network := fun _ => NoAnswer;
     qrcode := fun text => Some ("data:image/png;base64," ++ text);
     uuid := fun n => "uuid-" ++ pretty n;
     random := fun n => n |}.

Definition sample_payment (paymentId status : string) : PaymentData.t :=
  {| PaymentData.id := paymentId;
     PaymentData.amount := 100%Z;
     PaymentData.description := "2 tickets";
     PaymentData.tickets :=
       [ {| TicketSelection.type := "VIP"; TicketSelection.quantity := 2%Z;
            TicketSelection.unitPrice := 50%Z;
            TicketSelection.totalPrice := 100%Z |} ];
     PaymentData.status := status;
     PaymentData.pixCode := Some "00020126580014BR.GOV.BCB.PIX";
     PaymentData.qrCodeImage := None;
     PaymentData.createdAt := DateOfMs 0%Z;
     PaymentData.expiresAt := Some (DateOfMs 900000%Z) |}.

(** Two cached payments, a listener on the first. *)
Definition sample_world : World :=
  set_statusCallbacks (insert "pay_1" "modal")
    (set_payments (fun _ => <["pay_1" := 0]> (<["pay_2" := 1]> ∅))
       (set_heap (fun _ => [sample_payment "pay_1" "pending";
                            sample_payment "pay_2" "pending"])
          (initial "sk_test" "https://sandbox.amplopay.com.br/v1" sample_env))).

(** The gateway rejects the credential: every request is answered 401. *)
Definition unauthorized : Response :=
  {| status := 401; statusText := "Unauthorized"; json_payment := None;
     json_error := Some {| ed_message := Some "invalid api key";
                           ed_error := None |} |}.

Definition rejecting_env : Env :=
  {| window_origin := Some "https://localhost:5173";
     network := fun _ => Responds 120 unauthorized;
     qrcode := qrcode sample_env; uuid := uuid sample_env;
     random := random sample_env |}.

Definition rejecting_world : World :=
  set_payments (fun _ => payments sample_world)
    (set_heap (fun _ => heap sample_world)
       (initial "sk_wrong" "https://sandbox.amplopay.com.br/v1" rejecting_env)).

Definition sample_request : CreatePaymentRequest.t :=
  {| CreatePaymentRequest.amount := 100%Z;
     CreatePaymentRequest.description := "2 tickets";
     CreatePaymentRequest.tickets :=
       [ {| TicketSelection.type := "VIP"; TicketSelection.quantity := 2%Z;
            TicketSelection.unitPrice := 50%Z;
            TicketSelection.totalPrice := 100%Z |} ];
     CreatePaymentRequest.customerEmail := None;
     CreatePaymentRequest.customerName := None |}.

(** ** Reading a trace of the retry loop *)

Definition is_fetch (ev : Event) : bool :=
  match ev with EvFetch _ _ _ => true | _ => false end.

(** The number of [fetch] attempts in a trace. *)
Definition attempts_made (evs : list Event) : nat :=
  length (List.filter is_fetch evs).

(** A paced trace, attempt number [i] first: attempts alternate with waits,
    every attempt settles within [limit] ms, and the wait after attempt
    [i] is [i * unit] ms. The trace ends with an attempt. *)
Fixpoint paced (limit unit : Z) (i : nat) (evs : list Event) : bool :=
  match evs with
  | EvFetch _ started settled :: rest =>
      (0 <=? settled - started)%Z && (settled - started <=? limit)%Z &&
      match rest with
      | [] => true
      | EvDelay ms :: rest' =>
          (ms =? Z.of_nat i * unit)%Z && paced limit unit (S i) rest'
      | _ => false
      end
  | _ => false
  end.

(** What the network does with the [k]-th attempt of a call started in [w],
    raced against the 15 s abort timer. *)
Definition attempt_outcome (w : World) (k : nat) : Thrown + Response :=
  (settle 15000 (network (env w) (fetches w + k))).1.

(** The errors [fetchWithRetry] builds itself. *)
Definition translated (e : Thrown) : bool :=
  match e with
  | ErrorObj name message =>
      String.eqb name "Error" &&
      (String.eqb message
         "Timeout: A conexão demorou muito para responder. Verifique sua internet."
       || String.eqb message
         "Erro de CORS: Configure https://localhost:5173 nas origens permitidas no painel da Amplo Pay."
       || String.eqb message
         "Erro de conexão: Não foi possível conectar com o servidor de pagamentos.")
  | NotAnError _ => false
  end.

(** Every request fails the way a WebKit [fetch] reports a network error. *)
Definition webkit_env : Env :=
  {| window_origin := Some "https://localhost:5173";
     network := fun _ => Rejects 30 (ErrorObj "TypeError" "Load failed");
     qrcode := qrcode sample_env; uuid := uuid sample_env;
     random := random sample_env |}.

Definition webkit_world : World :=
  initial "sk_test" "https://sandbox.amplopay.com.br/v1" webkit_env.

(** ** Reading a status query *)

(** The gateway call [getPaymentStatus] makes from [w]. *)
Definition status_query (paymentId : string) (w : World)
    : World * (Thrown + Response) :=
  run (AmploPayService.fetchWithRetry
         (AmploPayService.statusRequest (baseUrl w) (apiKey w) paymentId)
         AmploPayService.maxRetries) w.

(** The status a query reports; [None] when the query fails: no response
    after the last attempt, a response that is not 2xx, or an unreadable
    body. *)
Definition reported_status (q : Thrown + Response) : option string :=
  match q with
  | inr response =>
      if ok response
      then AmploPayResponse.status <$> json_payment response
      else None
  | inl _ => None
  end.

(** No credential configured, one payment cached. *)
Definition keyless_world : World :=
  set_payments (fun _ => payments sample_world)
    (set_heap (fun _ => heap sample_world)
       (initial "" "https://sandbox.amplopay.com.br/v1" sample_env)).

(** A gateway that accepts the payment and, asked later, reports it paid. *)
Definition created_response (status : string) : Response :=
  {| status := 201; statusText := "Created";
     json_payment :=
       Some {| AmploPayResponse.id := "pay_9";
               AmploPayResponse.amount := 100%Z;
               AmploPayResponse.status := status;
               AmploPayResponse.pix_code := "00020126580014BR.GOV.BCB.PIX0136";
               AmploPayResponse.qr_code_url := None;
               AmploPayResponse.expires_at := "2025-01-01T00:15:00Z";
               AmploPayResponse.created_at := "2025-01-01T00:00:00Z" |};
     json_error := None |}.

Definition paying_env : Env :=
  {| window_origin := Some "https://localhost:5173";
     network := fun n => match n with
                         | O => Responds 80 (created_response "pending")
                         | S _ => Responds 60 (created_response "paid")
                         end;
     qrcode := qrcode sample_env; uuid := uuid sample_env;
     random := random sample_env |}.

Definition paying_world : World :=
  initial "sk_test" "https://sandbox.amplopay.com.br/v1" paying_env.

(** The first payment has been paid. *)
Definition paid_world : World :=
  set_heap (fun _ => [sample_payment "pay_1" "paid";
                      sample_payment "pay_2" "pending"]) sample_world.

(** ** Reading the timer pool *)

(** Effects that leave the timer pool alone. *)
Definition timerless {X} (e : Eff X) : bool :=
  match e with
  | SetTimeout _ _ | SetInterval _ _ | ClearInterval _ => false
  | _ => true
  end.


(** Effects that mention only timer ids below [n]. *)
Definition below (n : handle) {X} (e : Eff X) : Prop :=
  match e with
  | ClearInterval g => g < n
  | SetTimeout (StopPolling g) _ | SetInterval (StopPolling g) _ => g < n
  | _ => True
  end.

(** Every timer id that a pending timer or a suspended call holds has been
    handed out. *)
Definition well_formed (w : World) : Prop :=
  Forall (fun t => t_handle t < next_handle w /\
                   match t_action t with
                   | StopPolling g => g < next_handle w
                   | _ => True
                   end) (timers w) /\
  Forall (fun j => all_effects (fun X e => below (next_handle w) e) j.2)
         (tasks w).

(** No timer with id [h] is pending. *)
Definition cancelled (h : handle) (w : World) : Prop :=
  Forall (fun t => t_handle t <> h) (timers w).

(** The timeout [startPaymentPolling] sets up in [w] for its interval. *)
Definition ceiling_timer (w : World) : Timer :=
  {| t_handle := S (next_handle w);
     t_due := (now w + AmploPayService.pollingCeiling)%Z;
     t_period := None;
     t_action := StopPolling (next_handle w) |}.


(** ** Sample runs of the event loop *)

(** Polling [pay_1] every 25 minutes, started in [sample_world]. *)
Definition polling_world : World :=
  resume (AmploPayService.startPaymentPolling "pay_1" 1500000) sample_world.

(** The ceiling timer fires; later the page registers a listener. *)
Definition after_ceiling : World :=
  resume (call_body (CallOnStatusUpdate "pay_2" "modal"))
    (set_now (fun _ => 1300000%Z)
       (fire (ceiling_timer sample_world) polling_world)).

(** [n] draws from the random source. *)
Definition bump_random (n : nat) (w : World) : World :=
  {| apiKey := apiKey w; baseUrl := baseUrl w; payments := payments w;
     statusCallbacks := statusCallbacks w; heap := heap w; now := now w;
     timers := timers w; next_handle := next_handle w; tasks := tasks w;
     trace := trace w; env := env w; fetches := fetches w; uuids := uuids w;
     randoms := n + randoms w |}.

(** A fresh page with no credential. *)
Definition fresh_keyless : World :=
  initial "" "https://sandbox.amplopay.com.br/v1" sample_env.

(** ** Further readings of the cache and of the trace *)

(** Every cached record sits under its own id. *)
Definition keyed_by_id (w : World) : Prop :=
  forall i l p,
    payments w !! i = Some l -> deref w l = Some p -> PaymentData.id p = i.

(** The cache as the service means it: valid references, one id per
    record, and each record under its own id. *)
Definition consistent (w : World) : Prop :=
  sound_cache w /\ keyed_by_id w.

(** The [paymentStatusUpdate] events dispatched on [window], in order. *)
Definition broadcasts (tr : list Event) : list (string * string) :=
  omap (fun ev => match ev with
                  | EvCustomEvent i s => Some (i, s)
                  | _ => None
                  end) tr.

(** Effects that notify nobody and leave the listener registry and the
    timer pool alone. *)
Definition silent {X} (e : Eff X) : bool :=
  match e with
  | Invoke _ _ | DispatchEvent _ _ | CallbacksSet _ _
  | SetTimeout _ _ | SetInterval _ _ | ClearInterval _ => false
  | _ => true
  end.

(** Whether a status query ended with a record in a terminal status. *)
Definition found_terminal (q : World * (Thrown + option loc)) : bool :=
  match q.2 with
  | inr (Some l) =>
      AmploPayService.terminal
        (default "" (PaymentData.status <$> heap q.1 !! l))
  | _ => false
  end.

(** The longest the retry loop can take with [S n] iterations left, when
    the next attempt is number [S i]: 15 s for each attempt and [k]
    seconds after each failed attempt [k] but the last. *)
Fixpoint retry_budget (n i : nat) : Z :=
  match n with
  | O => 15000
  | S n' => 15000 + 1000 * (Z.of_nat i + 1) + retry_budget n' (S i)
  end.

(** The world after a gateway call whose first attempt was answered after
    [t] ms. *)
Definition answered (req : Request) (t : Z) (w : World) : World :=
  set_now (fun now => (now + Z.max 0 t)%Z)
    (log (EvFetch req (now w) (now w + Z.max 0 t)) (count_fetch w)).

(** The detail [createPayment] reports for an HTTP error that has no
    message of its own: the gateway's [message], else its [error], else
    the status line. *)
Definition error_detail (response : Response) : string :=
  let statusLine :=
    "Erro " ++ pretty (status response) ++ ": " ++ statusText response in
  match json_error response with
  | Some d =>
      AmploPayService.or_else (ed_message d)
        (AmploPayService.or_else (ed_error d) statusLine)
  | None => statusLine
  end.

(** The record [createPayment] builds from a request and the gateway's
    answer. *)
Definition record_of (request : CreatePaymentRequest.t)
    (a : AmploPayResponse.t) (qr : option string) : PaymentData.t :=
  {| PaymentData.id := AmploPayResponse.id a;
     PaymentData.amount := AmploPayResponse.amount a;
     PaymentData.description := CreatePaymentRequest.description request;
     PaymentData.tickets := CreatePaymentRequest.tickets request;
     PaymentData.status := AmploPayResponse.status a;
     PaymentData.pixCode := Some (AmploPayResponse.pix_code a);
     PaymentData.qrCodeImage := qr;
     PaymentData.createdAt := DateOfString (AmploPayResponse.created_at a);
     PaymentData.expiresAt := Some (DateOfString (AmploPayResponse.expires_at a)) |}.

(** A gateway that answers everything with 503. *)
Definition unavailable : Response :=
  {| status := 503; statusText := "Service Unavailable"; json_payment := None;
     json_error := None |}.

Definition failing_env : Env :=
  {| window_origin := Some "https://localhost:5173";
     network := fun _ => Responds 250 unavailable;
     qrcode := qrcode sample_env; uuid := uuid sample_env;
     random := random sample_env |}.

Definition failing_world : World :=
  set_statusCallbacks (fun _ => statusCallbacks sample_world)
    (set_payments (fun _ => payments sample_world)
       (set_heap (fun _ => heap sample_world)
          (initial "sk_test" "https://sandbox.amplopay.com.br/v1" failing_env))).

(** ** Reading a mock Pix code *)

Definition is_digit (c : Ascii.ascii) : bool :=
  match String.index 0 (String c EmptyString) "0123456789" with
  | Some _ => true
  | None => false
  end.

Definition is_code_char (c : Ascii.ascii) : bool :=
  match String.index 0 (String c EmptyString) MockPaymentService.chars with
  | Some _ => true
  | None => false
  end.

Definition pix_prefix : string := "00020126580014BR.GOV.BCB.PIX0136".
Definition pix_middle : string :=
  "5204000053039865802BR5925DEBOXE ECLIPSE PAGAMENTO6009SAO PAULO62070503***6304".

(** ** The page ([src/App.tsx]) *)

Module App.

(** [keyof TicketCount], in the order the object literal lists the keys,
    which is the order [Object.values] and [Object.entries] follow. *)
Inductive TicketType :=
| vipMeia | vipInteira | backstageMeia | backstageInteira
| influencersMeia | influencersInteira.

Definition ticketTypes : list TicketType :=
  [vipMeia; vipInteira; backstageMeia; backstageInteira;
   influencersMeia; influencersInteira].

(** The [ticketCounts] state: a count for each key. *)
Definition TicketCount := TicketType -> Z.

Definition noTickets : TicketCount := fun _ => 0%Z.

Definition ticketPrices (t : TicketType) : Z :=
  match t with
  | vipMeia => 1
  | vipInteira => 130
  | backstageMeia => 110
  | backstageInteira => 210
  | influencersMeia => 150
  | influencersInteira => 320
  end.

Definition same_type (a b : TicketType) : bool :=
  match a, b with
  | vipMeia, vipMeia | vipInteira, vipInteira
  | backstageMeia, backstageMeia | backstageInteira, backstageInteira
  | influencersMeia, influencersMeia
  | influencersInteira, influencersInteira => true
  | _, _ => false
  end.

(** The updater [updateTicketCount] passes to [setTicketCounts]:
    [{...prev, [ticketType]: Math.max(0, prev[ticketType] + (increment ? 1 : -1))}] *)
Definition updateTicketCount (ticketType : TicketType) (increment : bool)
    (prev : TicketCount) : TicketCount :=
  fun t =>
    if same_type t ticketType
    then Z.max 0 (prev ticketType + (if increment then 1 else -1))
    else prev t.

(** [Object.entries(ticketCounts)] *)
Definition entries (ticketCounts : TicketCount) : list (TicketType * Z) :=
  List.map (fun t => (t, ticketCounts t)) ticketTypes.

(** [Object.values(ticketCounts).reduce((sum, count) => sum + count, 0)] *)
Definition getTotalTickets (ticketCounts : TicketCount) : Z :=
  fold_left (fun sum count => (sum + count)%Z)
    (List.map snd (entries ticketCounts)) 0%Z.

Definition getTotalValue (ticketCounts : TicketCount) : Z :=
  fold_left (fun total e => (total + e.2 * ticketPrices e.1)%Z)
    (entries ticketCounts) 0%Z.

Definition ticketNames (t : TicketType) : string :=
  match t with
  | vipMeia => "ÁREA VIP - MEIA/SOLIDÁRIA"
  | vipInteira => "ÁREA VIP - INTEIRA"
  | backstageMeia => "BACKSTAGE DEBOXE - MEIA/SOLIDÁRIA"
  | backstageInteira => "BACKSTAGE DEBOXE - INTEIRA"
  | influencersMeia => "ÁREA INFLUENCERS - MEIA/SOLIDÁRIA"
  | influencersInteira => "ÁREA INFLUENCERS - INTEIRA"
  end.

(** The [forEach] of [getTicketSelections]: a line is pushed for each key
    whose count is positive. *)
Definition getTicketSelections (ticketCounts : TicketCount)
    : list TicketSelection.t :=
  fold_left
    (fun selections e =>
       if (e.2 >? 0)%Z
       then (selections ++
             [ {| TicketSelection.type := ticketNames e.1;
                  TicketSelection.quantity := e.2;
                  TicketSelection.unitPrice := ticketPrices e.1;
                  TicketSelection.totalPrice := (e.2 * ticketPrices e.1)%Z |} ])%list
       else selections)
    (entries ticketCounts) [].

(** The state of the page that [handleAdvance] reads and sets, and the
    alerts it has shown. *)
Record State := {
  ticketCounts : TicketCount;
  modalOpen : bool;
  modalPayment : option loc;
  isProcessingPayment : bool;
  alerts : list string }.

Definition nl : string := String (Ascii.ascii_of_nat 10) EmptyString.

Definition keyHelp : string :=
  nl ++ nl ++
  "🔧 Solução:" ++ nl ++
  "1. Acesse https://amplopay.com.br" ++ nl ++
  "2. Crie uma conta" ++ nl ++
  "3. Obtenha sua API Key" ++ nl ++
  "4. Configure no arquivo .env".
Definition corsHelp : string :=
  nl ++ nl ++
  "🔧 Solução:" ++ nl ++
  "1. Acesse o painel da Amplo Pay" ++ nl ++
  "2. Vá em Configurações > API" ++ nl ++
  "3. Adicione https://localhost:5173 nas origens permitidas" ++ nl ++
  "4. Para produção, adicione seu domínio real".
Definition connectionHelp : string :=
  nl ++ nl ++
  "🔧 Solução:" ++ nl ++
  "1. Verifique sua conexão com a internet" ++ nl ++
  "2. Tente novamente em alguns segundos".
Definition waitHelp : string :=
  nl ++ nl ++
  "🔧 Solução:" ++ nl ++
  "1. Aguarde alguns minutos" ++ nl ++
  "2. Tente novamente" ++ nl ++
  "3. Se persistir, contate o suporte".

(** The help text the [catch] of [handleAdvance] picks for a message. *)
Definition helpMessage (errorMessage : string) : string :=
  if includes "API Key" errorMessage then keyHelp
  else if includes "CORS" errorMessage then corsHelp
  else if includes "conexão" errorMessage then connectionHelp
  else if includes "interno" errorMessage then waitHelp
  else "".

Definition alertText (error : Thrown) : string :=
  let errorMessage :=
    match error with
    | ErrorObj _ message => message
    | NotAnError _ => "Erro desconhecido"
    end in
  "❌ Erro no pagamento:" ++ nl ++ nl ++ errorMessage ++ helpMessage errorMessage.

Definition description (ticketCounts : TicketCount) : string :=
  "DEBOXE • ECLIPSE - " ++ pretty (getTotalTickets ticketCounts) ++ " ingresso(s)".

(** [handleAdvance]: the state it leaves once the call has settled. *)
Definition handleAdvance (s : State) : Async State :=
  if (getTotalTickets (ticketCounts s) >? 0)%Z then
    let processing :=
      {| ticketCounts := ticketCounts s; modalOpen := modalOpen s;
         modalPayment := modalPayment s; isProcessingPayment := true;
         alerts := alerts s |} in
    let! attempted :=
      try_catch
        (let! paymentData :=
           AmploPayService.createPixPayment
             (getTotalValue (ticketCounts s))
             (description (ticketCounts s))
             (getTicketSelections (ticketCounts s)) in
         Ret {| ticketCounts := ticketCounts processing; modalOpen := true;
                modalPayment := Some paymentData;
                isProcessingPayment := isProcessingPayment processing;
                alerts := alerts processing |})
        (fun error =>
           Ret {| ticketCounts := ticketCounts processing;
                  modalOpen := modalOpen processing;
                  modalPayment := modalPayment processing;
                  isProcessingPayment := isProcessingPayment processing;
                  alerts := (alerts processing ++ [alertText error])%list |}) in
    Ret {| ticketCounts := ticketCounts attempted; modalOpen := modalOpen attempted;
           modalPayment := modalPayment attempted; isProcessingPayment := false;
           alerts := alerts attempted |}
  else Ret s.

End App.

(** ** Reading a cart *)

(** The sum of a field over the lines of a selection. *)
Definition sum_of (f : TicketSelection.t -> Z) (lines : list TicketSelection.t) : Z :=
  fold_right (fun line acc => (f line + acc)%Z) 0%Z lines.

(** A cart no count of which is negative. *)
Definition valid_cart (ticketCounts : App.TicketCount) : Prop :=
  forall t, (0 <= ticketCounts t)%Z.

(** Two full-price VIP tickets. *)
Definition sample_cart : App.TicketCount :=
  App.updateTicketCount App.vipInteira true
    (App.updateTicketCount App.vipInteira true App.noTickets).

Definition sample_page : App.State :=
  {| App.ticketCounts := sample_cart; App.modalOpen := false;
     App.modalPayment := None; App.isProcessingPayment := false;
     App.alerts := [] |}.

(** ** The payment modal ([src/components/PaymentModal.tsx]) *)

Module PaymentModal.

(** [s.padStart(2, '0')] *)
Definition padStart2 (s : string) : string :=
  match String.length s with
  | 0 => "00"
  | 1 => "0" ++ s
  | _ => s
  end.

(** [formatTime(seconds)] on a whole number of seconds: [Math.floor] of
    the quotient, [%] as JavaScript's remainder. *)
Definition formatTime (seconds : Z) : string :=
  let minutes := (seconds / 60)%Z in
  let remainingSeconds := Z.rem seconds 60 in
  padStart2 (pretty minutes) ++ ":" ++ padStart2 (pretty remainingSeconds).

(** [updateTimer] of the expiry effect, on epoch milliseconds: the new
    [timeLeft] and whether [onPaymentUpdate('expired')] is called. A record
    without [expiresAt] leaves [timeLeft] alone. *)
Definition updateTimer (expiresAt : option Z) (now timeLeft : Z) : Z * bool :=
  match expiresAt with
  | Some expiresAt =>
      let remaining := Z.max 0 ((expiresAt - now) / 1000) in
      (remaining, (remaining <=? 0)%Z)
  | None => (timeLeft, false)
  end.

End PaymentModal.

(** The two-digit numbers, as the countdown shows them. *)
Definition two_digits : list string :=
  (fun n => PaymentModal.padStart2 (pretty (Z.of_nat n))) <$> seq 0 100.

(** ** Calls in the event loop *)

(** Effects of a call that sets no timer of its own and gives [fetch] a
    timeout that is not negative. *)
Definition calm {X} (e : Eff X) : bool :=
  match e with
  | SetTimeout _ _ | SetInterval _ _ => false
  | Fetch _ timeout => (0 <=? timeout)%Z
  | _ => true
  end.

(** The world a call leaves once it has ended in the event loop: a
    rejection that nobody handles is reported. *)
Definition settled (r : World * (Thrown + unit)) : World :=
  match r.2 with
  | inr _ => r.1
  | inl e => log (EvUnhandledRejection e) r.1
  end.

(** The interval timer [startPaymentPolling] sets up in [w]. *)
Definition poll_timer (paymentId : string) (intervalMs : Z) (w : World) : Timer :=
  {| t_handle := next_handle w;
     t_due := (now w + Z.max 0 intervalMs)%Z;
     t_period := Some (Z.max 0 intervalMs);
     t_action := PollTick paymentId |}.

(** The world in which the first tick of that interval starts, when
    nothing else was pending. *)
Definition first_tick_world (paymentId : string) (intervalMs : Z) (w : World)
    : World :=
  set_timers (rearm (poll_timer paymentId intervalMs w))
    (set_now (Z.max (t_due (poll_timer paymentId intervalMs w)))
       (resume (AmploPayService.startPaymentPolling paymentId intervalMs) w)).
(** ** Running programs: basic equations *)

Lemma run_bind {A B} (m : Async A) (f : A -> Async B) (w : World) :
  run (bind m f) w =
  match run m w with
  | (w', inr a) => run (f a) w'
  | (w', inl e) => (w', inl e)
  end.
Proof.
  revert w. induction m as [a | e | X e k IH]; intros w; simpl; try reflexivity.
  destruct (handle_eff e w) as [[w' x] d]. apply IH.
Qed.

Lemma run_try_catch {A} (m : Async A) (h : Thrown -> Async A) (w : World) :
  run (try_catch m h) w =
  match run m w with
  | (w', inr a) => (w', inr a)
  | (w', inl e) => run (h e) w'
  end.
Proof.
  revert w. induction m as [a | e | X e k IH]; intros w; simpl; try reflexivity.
  destruct (handle_eff e w) as [[w' x] d]. apply IH.
Qed.

Lemma all_effects_bind P {A B} (m : Async A) (f : A -> Async B) :
  all_effects P m -> (forall a, all_effects P (f a)) -> all_effects P (bind m f).
Proof.
  intros Hm Hf. induction Hm; simpl; auto using all_throw, all_vis.
Qed.

Lemma all_effects_try_catch P {A} (m : Async A) (h : Thrown -> Async A) :
  all_effects P m -> (forall e, all_effects P (h e)) ->
  all_effects P (try_catch m h).
Proof.
  intros Hm Hh. induction Hm; simpl; auto using all_ret, all_vis.
Qed.

Lemma all_effects_perform (P : forall X, Eff X -> Prop) {X} (e : Eff X) :
  P X e -> all_effects P (perform e).
Proof. intros H. apply all_vis; [exact H | intros x; apply all_ret]. Qed.

Lemma all_effects_weaken (P Q : forall X, Eff X -> Prop) {R} (m : Async R) :
  (forall X e, P X e -> Q X e) -> all_effects P m -> all_effects Q m.
Proof. intros HPQ Hm. induction Hm; auto using all_ret, all_throw, all_vis. Qed.

(** No program changes the configuration or the environment. *)
Lemma run_config {R} (m : Async R) (w : World) :
  apiKey (run m w).1 = apiKey w /\ baseUrl (run m w).1 = baseUrl w /\
  env (run m w).1 = env w.
Proof.
  revert w. induction m as [r | e | X e k IH]; intros w; simpl; auto.
  destruct (handle_eff e w) as [[w' x] d] eqn:E.
  destruct (IH x (if suspends e then set_now (fun t => (t + d)%Z) w' else w'))
    as (-> & -> & ->).
  assert (apiKey w' = apiKey w /\ baseUrl w' = baseUrl w /\ env w' = env w)
    as (Ha & Hb & He).
  { destruct e; simpl in E;
      try (injection E as <- <- <-; auto);
      try (destruct (settle _ _); injection E as <- <- <-; auto). }
  destruct (suspends e); simpl; auto.
Qed.

(** A program that only talks to the network leaves the service, the heap
    and the timers alone. *)
Lemma run_io_only {R} (m : Async R) (w : World) :
  all_effects (fun X e => io_only e = true) m ->
  payments (run m w).1 = payments w /\ heap (run m w).1 = heap w /\
  statusCallbacks (run m w).1 = statusCallbacks w /\
  timers (run m w).1 = timers w /\ next_handle (run m w).1 = next_handle w /\
  tasks (run m w).1 = tasks w.
Proof.
  intros Hm. revert w.
  induction Hm as [r | e | X e k He Hk IH]; intros w; simpl; auto 10.
  destruct e; try discriminate He; simpl.
  - destruct (settle _ _) as [r d]. simpl.
    destruct (IH r (set_now (fun t => (t + d)%Z)
                      (log (EvFetch req (now w) (now w + d)) (count_fetch w))))
      as (-> & -> & -> & -> & -> & ->). auto 10.
  - destruct (IH tt (set_now (fun t => (t + Z.max 0 ms)%Z) (log (EvDelay ms) w)))
      as (-> & -> & -> & -> & -> & ->). auto 10.
Qed.

Lemma attempts_io_only (req : Request) (retries n i : nat) :
  all_effects (fun X e => io_only e = true)
    (AmploPayService.attempts req retries n i).
Proof.
  revert i. induction n as [| n IH]; intros i; simpl.
  - apply all_throw.
  - apply all_vis; [reflexivity |]. intros [error | response].
    + destruct (i =? retries)%nat; [apply all_throw |].
      apply all_vis; [reflexivity |]. intros _. apply IH.
    + apply all_ret.
Qed.

Lemma run_updatePaymentStatus (paymentId status : string) (w : World) :
  run (AmploPayService.updatePaymentStatus paymentId status) w =
  (broadcast paymentId status (stored paymentId status
     (notified paymentId status w)), inr tt).
Proof.
  unfold AmploPayService.updatePaymentStatus, notified, stored, broadcast.
  simpl.
  destruct (statusCallbacks w !! paymentId) as [cb |]; simpl;
    destruct (payments w !! paymentId) as [l |]; simpl;
    destruct (window_origin (env w)); reflexivity.
Qed.


Lemma listener_calls_app (a b : list Event) :
  listener_calls (a ++ b) = (listener_calls a ++ listener_calls b)%list.
Proof. unfold listener_calls. apply omap_app. Qed.

Lemma same_but_status_set (s : string) (p : PaymentData.t) :
  PaymentData.same_but_status p (PaymentData.set_status s p).
Proof. destruct p. repeat split. Qed.

Lemma set_status_twice (s : string) (p : PaymentData.t) :
  PaymentData.set_status s (PaymentData.set_status s p) = PaymentData.set_status s p.
Proof. destruct p. reflexivity. Qed.

Lemma sound_cache_initial key base e : sound_cache (initial key base e).
Proof. split; simpl; intros *; rewrite lookup_empty; discriminate. Qed.

(** *** What [updatePaymentStatus] leaves behind, field by field *)

Section UpdateFields.
Variables (paymentId status : string) (w : World).
Let w' := broadcast paymentId status
            (stored paymentId status (notified paymentId status w)).

Lemma updated_payments : payments w' = payments w.
Proof.
  subst w'. unfold broadcast, stored, notified.
  destruct (statusCallbacks w !! paymentId); simpl;
    destruct (payments w !! paymentId) eqn:E; simpl;
    destruct (window_origin (env w)); simpl;
    try reflexivity; apply insert_id; exact E.
Qed.

Lemma updated_statusCallbacks : statusCallbacks w' = statusCallbacks w.
Proof.
  subst w'. unfold broadcast, stored, notified.
  destruct (statusCallbacks w !! paymentId); simpl;
    destruct (payments w !! paymentId); simpl;
    destruct (window_origin (env w)); reflexivity.
Qed.

Lemma updated_heap :
  heap w' = match payments w !! paymentId with
            | Some l => alter (PaymentData.set_status status) l (heap w)
            | None => heap w
            end.
Proof.
  subst w'. unfold broadcast, stored, notified.
  destruct (statusCallbacks w !! paymentId); simpl;
    destruct (payments w !! paymentId); simpl;
    destruct (window_origin (env w)); reflexivity.
Qed.

Lemma updated_trace :
  trace w' =
  (trace w
   ++ match statusCallbacks w !! paymentId with
      | Some cb => [EvListener cb status]
      | None => []
      end
   ++ match window_origin (env w) with
      | Some _ => [EvCustomEvent paymentId status]
      | None => []
      end)%list.
Proof.
  subst w'. unfold broadcast, stored, notified.
  destruct (statusCallbacks w !! paymentId); simpl;
    destruct (payments w !! paymentId); simpl;
    destruct (window_origin (env w)); simpl;
    rewrite ?app_nil_r, <- ?app_assoc; reflexivity.
Qed.

Lemma updated_env : env w' = env w.
Proof.
  subst w'. unfold broadcast, stored, notified.
  destruct (statusCallbacks w !! paymentId); simpl;
    destruct (payments w !! paymentId); simpl;
    destruct (window_origin (env w)); reflexivity.
Qed.

Lemma updated_timers : timers w' = timers w /\ next_handle w' = next_handle w
                       /\ tasks w' = tasks w /\ now w' = now w.
Proof.
  subst w'. unfold broadcast, stored, notified.
  destruct (statusCallbacks w !! paymentId); simpl;
    destruct (payments w !! paymentId); simpl;
    destruct (window_origin (env w)); repeat split.
Qed.

Lemma updated_cached_same :
  cached w' paymentId = PaymentData.set_status status <$> cached w paymentId.
Proof.
  unfold cached, deref. rewrite updated_payments, updated_heap.
  destruct (payments w !! paymentId) as [l |]; simpl; [| reflexivity].
  apply list_lookup_alter_eq.
Qed.

Lemma updated_cached_other (other : string) :
  sound_cache w -> other <> paymentId -> cached w' other = cached w other.
Proof.
  intros [_ Hinj] Hne. unfold cached, deref.
  rewrite updated_payments, updated_heap.
  destruct (payments w !! other) as [l' |] eqn:Eo; simpl; [| reflexivity].
  destruct (payments w !! paymentId) as [l |] eqn:Ei; [| reflexivity].
  apply list_lookup_alter_ne. intros ->. apply Hne. eapply Hinj; eassumption.
Qed.

Lemma updated_sound : sound_cache w -> sound_cache w'.
Proof.
  intros [Hv Hinj]. split.
  - intros i l. rewrite updated_payments, updated_heap. intros Hi.
    destruct (payments w !! paymentId); [rewrite length_alter |]; eauto.
  - intros i j l. rewrite updated_payments. apply Hinj.
Qed.
End UpdateFields.

(** ** The listener registry *)

Lemma run_onStatusUpdate (paymentId : string) (cb : Callback) (w : World) :
  run (AmploPayService.onStatusUpdate paymentId cb) w =
  (set_statusCallbacks (insert paymentId cb) w, inr tt).
Proof. reflexivity. Qed.

(** C8. [onStatusUpdate] keeps one listener per id, the last one
    registered: registering [new] over [old] leaves [new] in the registry
    (other ids as they were), and the next [updatePaymentStatus] for the id
    calls [new] once and nothing else. *)
Theorem onStatusUpdate_replaces (w : World) (paymentId : string)
    (old new : Callback) (status : string) :
  let w1 := (run (AmploPayService.onStatusUpdate paymentId old) w).1 in
  let w2 := (run (AmploPayService.onStatusUpdate paymentId new) w1).1 in
  let w3 := (run (AmploPayService.updatePaymentStatus paymentId status) w2).1 in
  statusCallbacks w2 = <[paymentId := new]> (statusCallbacks w) /\
  statusCallbacks w2 !! paymentId = Some new /\
  listener_calls (trace w3) = (listener_calls (trace w2) ++ [(new, status)])%list.
Proof.
  cbv zeta. rewrite !run_onStatusUpdate, run_updatePaymentStatus.
  cbn [fst snd]. rewrite updated_trace. cbn [statusCallbacks set_statusCallbacks].
  rewrite insert_insert_eq, lookup_insert_eq.
  repeat split. rewrite !listener_calls_app. cbn [env set_statusCallbacks].
  destruct (window_origin (env w)); reflexivity.
Qed.

(** ** [updatePaymentStatus] *)

(** C9. [updatePaymentStatus] returns normally for every id and every
    status string, with or without a cached record or a listener; a cached
    record ends with exactly that status, whatever the string (here
    ["refunded"], which is none of the four declared statuses). *)
Theorem updatePaymentStatus_total (w : World) (paymentId status : string) :
  let r := run (AmploPayService.updatePaymentStatus paymentId status) w in
  r.2 = inr tt /\
  cached r.1 paymentId = PaymentData.set_status status <$> cached w paymentId /\
  cached_status r.1 paymentId = (fun _ => status) <$> cached w paymentId /\
  cached_status
    (run (AmploPayService.updatePaymentStatus "pay_1" "refunded") sample_world).1
    "pay_1" = Some "refunded".
Proof.
  cbv zeta. rewrite run_updatePaymentStatus. cbn [fst snd].
  split; [reflexivity |]. split; [apply updated_cached_same |].
  split; [| reflexivity].
  unfold cached_status. rewrite updated_cached_same.
  destruct (cached w paymentId) as [p |]; [destruct p |]; reflexivity.
Qed.

(** C10. On a sound cache, [updatePaymentStatus(paymentId, status)]
    changes the status field of the record cached under [paymentId] and
    nothing else: its other fields, the records under every other id, the
    [payments] map and the listener registry stay as they were. *)
Theorem updatePaymentStatus_frame (w : World) (paymentId status : string) :
  sound_cache w ->
  let w' := (run (AmploPayService.updatePaymentStatus paymentId status) w).1 in
  (forall p, cached w paymentId = Some p ->
     exists p', cached w' paymentId = Some p' /\
                PaymentData.status p' = status /\
                PaymentData.same_but_status p p') /\
  (forall other, other <> paymentId -> cached w' other = cached w other) /\
  payments w' = payments w /\
  statusCallbacks w' = statusCallbacks w.
Proof.
  intros Hs. cbv zeta. rewrite run_updatePaymentStatus. cbn [fst snd].
  split; [| split; [| split]].
  - intros p Hp. exists (PaymentData.set_status status p).
    rewrite updated_cached_same, Hp. split; [reflexivity |].
    split; [destruct p; reflexivity | apply same_but_status_set].
  - intros other Hne. apply updated_cached_other; assumption.
  - apply updated_payments.
  - apply updated_statusCallbacks.
Qed.

Lemma sound_cache_sample : sound_cache sample_world.
Proof.
  split; simpl.
  - intros i l H.
    destruct (decide (i = "pay_1")) as [-> | N1];
      [rewrite lookup_insert_eq in H | rewrite lookup_insert_ne in H by congruence].
    + injection H as <-. lia.
    + destruct (decide (i = "pay_2")) as [-> | N2];
        [rewrite lookup_insert_eq in H | rewrite lookup_insert_ne in H by congruence].
      * injection H as <-. lia.
      * rewrite lookup_empty in H. discriminate.
  - intros i j l Hi Hj.
    destruct (decide (i = "pay_1")) as [-> | N1];
      [rewrite lookup_insert_eq in Hi | rewrite lookup_insert_ne in Hi by congruence];
    (destruct (decide (j = "pay_1")) as [-> | M1];
      [rewrite lookup_insert_eq in Hj | rewrite lookup_insert_ne in Hj by congruence]);
    try reflexivity.
    + injection Hi as <-.
      destruct (decide (j = "pay_2")) as [-> | M2];
        [rewrite lookup_insert_eq in Hj | rewrite lookup_insert_ne in Hj by congruence];
        [discriminate | rewrite lookup_empty in Hj; discriminate].
    + injection Hj as <-.
      destruct (decide (i = "pay_2")) as [-> | N2];
        [rewrite lookup_insert_eq in Hi | rewrite lookup_insert_ne in Hi by congruence];
        [discriminate | rewrite lookup_empty in Hi; discriminate].
    + destruct (decide (i = "pay_2")) as [-> | N2];
        [rewrite lookup_insert_eq in Hi | rewrite lookup_insert_ne in Hi by congruence];
      (destruct (decide (j = "pay_2")) as [-> | M2];
        [rewrite lookup_insert_eq in Hj | rewrite lookup_insert_ne in Hj by congruence]);
      try reflexivity;
      try (rewrite lookup_empty in Hi; discriminate);
      rewrite lookup_empty in Hj; discriminate.
Qed.

Lemma updatePaymentStatus_frame_witness :
  let w' := (run (AmploPayService.updatePaymentStatus "pay_1" "paid") sample_world).1 in
  (forall p, cached sample_world "pay_1" = Some p ->
     exists p', cached w' "pay_1" = Some p' /\
                PaymentData.status p' = "paid" /\
                PaymentData.same_but_status p p') /\
  (forall other, other <> "pay_1" -> cached w' other = cached sample_world other) /\
  payments w' = payments sample_world /\
  statusCallbacks w' = statusCallbacks sample_world.
Proof.
  exact (updatePaymentStatus_frame sample_world "pay_1" "paid" sound_cache_sample).
Defined.

(** ** [createPayment] *)

Lemma createPayment_run (request : CreatePaymentRequest.t) (w : World) :
  let r := run (AmploPayService.createPayment request) w in
  match r.2 with
  | inl _ =>
      payments r.1 = payments w /\ heap r.1 = heap w /\
      statusCallbacks r.1 = statusCallbacks w
  | inr l =>
      exists p,
        l = length (heap w) /\ heap r.1 = (heap w ++ [p])%list /\
        payments r.1 = <[PaymentData.id p := l]> (payments w) /\
        statusCallbacks r.1 = statusCallbacks w /\
        truthy (apiKey w) = true
  end.
Proof.
  cbv zeta. unfold AmploPayService.createPayment.
  rewrite run_bind. cbn [run perform handle_eff suspends fst snd].
  destruct (truthy (apiKey w)) eqn:Ekey; cbn [negb]; [| simpl; auto].
  rewrite run_try_catch, run_bind.
  cbn [run perform handle_eff suspends fst snd].
  rewrite run_bind.
  cbn [run perform handle_eff suspends fst snd].
  destruct (window_origin (env w)) as [origin |]; [| simpl; auto].
  rewrite run_bind.
  match goal with |- context [run (AmploPayService.fetchWithRetry ?rq ?n) w] =>
    pose proof (run_io_only (AmploPayService.fetchWithRetry rq n) w
                  (attempts_io_only rq n (S n) 0)) as Hio;
    destruct (run (AmploPayService.fetchWithRetry rq n) w) as [w1 [e | response]]
  end; cbn [fst snd] in Hio; destruct Hio as (Hp & Hh & Hc & _).
  - simpl. destruct e; simpl; auto.
  - destruct (ok response); cbn [negb].
    + rewrite run_bind. cbn [run perform handle_eff suspends fst snd].
      destruct (json_payment response) as [a |]; [| simpl; auto].
      rewrite run_bind.
      destruct (negb (truthy_opt (AmploPayResponse.qr_code_url a))
                && truthy (AmploPayResponse.pix_code a)).
      * unfold AmploPayService.generateQRCodeImage. simpl.
        destruct (qrcode (env w1) (AmploPayResponse.pix_code a)); simpl; auto.
        eexists. rewrite Hp, Hh, Hc. repeat split.
      * simpl. eexists. rewrite Hp, Hh, Hc. repeat split.
    + unfold AmploPayService.rejectResponse. simpl.
      repeat (match goal with |- context [if ?b then _ else _] => destruct b end;
              simpl; auto).
Qed.

(** C3. A [createPayment] that fails leaves the payment cache as it was:
    the [payments] map and every cached object are unchanged, so no id has
    a record it did not have before (the listener registry is untouched
    too). *)
Theorem createPayment_failure_atomic (request : CreatePaymentRequest.t)
    (w : World) (e : Thrown) :
  (run (AmploPayService.createPayment request) w).2 = inl e ->
  let w' := (run (AmploPayService.createPayment request) w).1 in
  payments w' = payments w /\ heap w' = heap w /\
  statusCallbacks w' = statusCallbacks w /\
  forall paymentId, cached w' paymentId = cached w paymentId.
Proof.
  intros He. pose proof (createPayment_run request w) as H.
  cbv zeta in *. rewrite He in H. destruct H as (Hp & Hh & Hc).
  repeat split; try assumption.
  intros paymentId. unfold cached, deref. rewrite Hp, Hh. reflexivity.
Qed.

(** The scenario of the specification: the gateway answers 401. *)
Lemma createPayment_failure_atomic_witness :
  (run (AmploPayService.createPayment sample_request) rejecting_world).2
    = inl AmploPayService.invalidKeyError /\
  let w' := (run (AmploPayService.createPayment sample_request) rejecting_world).1 in
  payments w' = payments rejecting_world /\ heap w' = heap rejecting_world /\
  statusCallbacks w' = statusCallbacks rejecting_world /\
  forall paymentId, cached w' paymentId = cached rejecting_world paymentId.
Proof.
  split; [reflexivity |].
  apply (createPayment_failure_atomic sample_request rejecting_world
           AmploPayService.invalidKeyError).
  reflexivity.
Defined.
(** ** [fetchWithRetry] *)

Lemma settle_bound (timeout : Z) (o : NetOutcome) :
  (0 <= timeout)%Z -> (0 <= (settle timeout o).2 <= timeout)%Z.
Proof.
  intros Ht. destruct o as [t r | t e |]; simpl;
    try destruct (Z.ltb_spec (Z.max 0 t) timeout); simpl; lia.
Qed.

Lemma attempts_made_app (a b : list Event) :
  attempts_made (a ++ b) = attempts_made a + attempts_made b.
Proof. unfold attempts_made. rewrite List.filter_app, length_app. reflexivity. Qed.

(** One iteration of the retry loop. *)
Lemma run_attempts_S (req : Request) (retries n i : nat) (w : World) :
  run (AmploPayService.attempts req retries (S n) i) w =
  let '(r, d) := settle 15000 (network (env w) (fetches w)) in
  let w1 := set_now (fun t => (t + d)%Z)
              (log (EvFetch req (now w) (now w + d)) (count_fetch w)) in
  match r with
  | inr response => (w1, inr response)
  | inl error =>
      if (i =? retries)%nat
      then (w1, inl (AmploPayService.lastAttemptError error))
      else
        let ms := (AmploPayService.retryDelay * (Z.of_nat i + 1))%Z in
        run (AmploPayService.attempts req retries n (S i))
          (set_now (fun t => (t + Z.max 0 ms)%Z) (log (EvDelay ms) w1))
  end.
Proof.
  cbn [AmploPayService.attempts bind perform run handle_eff suspends].
  destruct (settle 15000 (network (env w) (fetches w))) as [[e | response] d];
    [| reflexivity].
  destruct (i =? retries)%nat; reflexivity.
Qed.

(** The retry loop with [S n] iterations left, about to make attempt
    number [S i]. *)
Lemma attempts_spec (req : Request) (retries : nat) :
  forall (n i : nat) (w : World), i + n = retries ->
  let r := run (AmploPayService.attempts req retries (S n) i) w in
  exists delta,
    trace r.1 = (trace w ++ delta)%list /\
    paced 15000 1000 (S i) delta = true /\
    1 <= attempts_made delta <= S n /\
    fetches r.1 = fetches w + attempts_made delta /\
    match r.2 with
    | inr response =>
        attempt_outcome w (attempts_made delta - 1) = inr response
    | inl e =>
        attempts_made delta = S n /\
        exists last, attempt_outcome w n = inl last /\
                     e = AmploPayService.lastAttemptError last
    end.
Proof.
  induction n as [| n IH]; intros i w Hi; cbv zeta; rewrite run_attempts_S;
    unfold attempt_outcome;
    pose proof (settle_bound 15000 (network (env w) (fetches w)) ltac:(lia)) as Hb;
    destruct (settle 15000 (network (env w) (fetches w)))
      as [[e | response] d] eqn:Es; cbn [fst snd] in Hb; cbv zeta.
  - replace (i =? retries)%nat with true by (symmetry; apply Nat.eqb_eq; lia).
    cbn [fst snd]. eexists [_]. cbn [trace log set_now count_fetch fetches].
    split; [reflexivity |]. split.
    { cbn [paced]. replace (now w + d - now w)%Z with d by lia.
      destruct (Z.leb_spec 0 d), (Z.leb_spec d 15000); lia || reflexivity. }
    split; [cbn; lia |]. split; [cbn; lia |]. split; [reflexivity |].
    exists e. rewrite Nat.add_0_r, Es. split; reflexivity.
  - cbn [fst snd]. eexists [_]. cbn [trace log set_now count_fetch fetches].
    split; [reflexivity |]. split.
    { cbn [paced]. replace (now w + d - now w)%Z with d by lia.
      destruct (Z.leb_spec 0 d), (Z.leb_spec d 15000); lia || reflexivity. }
    split; [cbn; lia |]. split; [cbn; lia |].
    cbn. rewrite Nat.add_0_r, Es. reflexivity.
  - replace (i =? retries)%nat with false by (symmetry; apply Nat.eqb_neq; lia).
    match goal with |- context [run _ ?w2] =>
      specialize (IH (S i) w2 ltac:(lia)); set (W := w2) in *
    end.
    cbv zeta in IH. destruct IH as (delta & Ht & Hpaced & Hn & Hf & Hr).
    exists (EvFetch req (now w) (now w + d)
            :: EvDelay (AmploPayService.retryDelay * (Z.of_nat i + 1)) :: delta).
    rewrite Ht. subst W. cbn [trace log set_now count_fetch fetches] in *.
    split; [rewrite <- !app_assoc; reflexivity |]. split.
    { cbn [paced]. rewrite Hpaced.
      replace (now w + d - now w)%Z with d by lia.
      destruct (Z.leb_spec 0 d), (Z.leb_spec d 15000); try lia.
      cbn [andb]. unfold AmploPayService.retryDelay.
      replace (1000 * (Z.of_nat i + 1) =? Z.of_nat (S i) * 1000)%Z with true
        by (symmetry; apply Z.eqb_eq; lia).
      reflexivity. }
    change (attempts_made (EvFetch req (now w) (now w + d)
             :: EvDelay (AmploPayService.retryDelay * (Z.of_nat i + 1)) :: delta))
      with (S (attempts_made delta)).
    split; [lia |]. split; [rewrite Hf; lia |].
    unfold attempt_outcome in Hr. cbn [env fetches set_now log count_fetch] in Hr.
    destruct (run _ _) as [w3 [e3 | resp3]]; cbn [fst snd] in *.
    + destruct Hr as (Hm & last & Hl & He). split; [lia |].
      exists last. split; [| exact He].
      rewrite <- Hl. f_equal. f_equal. f_equal. lia.
    + rewrite <- Hr. f_equal. f_equal. f_equal. lia.
  - cbn [fst snd]. eexists [_]. cbn [trace log set_now count_fetch fetches].
    split; [reflexivity |]. split.
    { cbn [paced]. replace (now w + d - now w)%Z with d by lia.
      destruct (Z.leb_spec 0 d), (Z.leb_spec d 15000); lia || reflexivity. }
    split; [cbn; lia |]. split; [cbn; lia |].
    cbn. rewrite Nat.add_0_r, Es. reflexivity.
Qed.

(** C4, as the code has it. A gateway call makes between one and four
    attempts; they alternate with waits, the wait after failed attempt [i]
    being [i] seconds; every attempt settles within 15 s, an unanswered one
    by abort. A response ends the loop. Only when the fourth attempt fails
    does the call fail, with that attempt's error: turned into the timeout,
    CORS or connection error when it is an abort or its message mentions
    CORS or fetch, and rethrown as it is otherwise. *)
Theorem fetchWithRetry_policy (req : Request) (w : World) :
  let r := run (AmploPayService.fetchWithRetry req AmploPayService.maxRetries) w in
  exists delta,
    trace r.1 = (trace w ++ delta)%list /\
    paced 15000 1000 1 delta = true /\
    1 <= attempts_made delta <= 4 /\
    settle 15000 NoAnswer = (inl AbortError, 15000%Z) /\
    AmploPayService.lastAttemptError AbortError = AmploPayService.timeoutError /\
    match r.2 with
    | inr response =>
        attempt_outcome w (attempts_made delta - 1) = inr response
    | inl e =>
        attempts_made delta = 4 /\
        exists last, attempt_outcome w 3 = inl last /\
                     e = AmploPayService.lastAttemptError last /\
                     (translated e = true \/ e = last)
    end.
Proof.
  pose proof (attempts_spec req AmploPayService.maxRetries 3 0 w eq_refl) as H.
  cbv zeta in *. unfold AmploPayService.fetchWithRetry.
  change (S AmploPayService.maxRetries) with 4.
  destruct H as (delta & Ht & Hp & Hn & _ & Hr).
  exists delta. repeat (split; [assumption || reflexivity |]).
  destruct (run _ w) as [w' [e | response]]; cbn [fst snd] in *; [| exact Hr].
  destruct Hr as (Hm & last & Hl & He). split; [exact Hm |].
  exists last. repeat (split; [assumption |]). subst e.
  destruct last as [name message | shown]; [| right; reflexivity].
  unfold AmploPayService.lastAttemptError.
  destruct (String.eqb name "AbortError"); [left; reflexivity |].
  destruct (includes "CORS" message || includes "cors" message);
    [left; reflexivity |].
  destruct (includes "fetch" message); [left; reflexivity | right; reflexivity].
Qed.

(** C4 as stated fails: when every attempt is rejected with WebKit's
    [TypeError: Load failed], the call fails with that very error, which is
    none of the errors the retry loop translates to. *)
Lemma fetchWithRetry_raw_failure :
  (run (AmploPayService.fetchWithRetry
          (AmploPayService.statusRequest "https://sandbox.amplopay.com.br/v1"
             "sk_test" "pay_1")
          AmploPayService.maxRetries) webkit_world).2
    = inl (ErrorObj "TypeError" "Load failed") /\
  translated (ErrorObj "TypeError" "Load failed") = false /\
  ~ (forall w req e,
       (run (AmploPayService.fetchWithRetry req AmploPayService.maxRetries) w).2
         = inl e -> translated e = true).
Proof.
  split; [reflexivity |]. split; [reflexivity |].
  intros H.
  specialize (H webkit_world
                (AmploPayService.statusRequest "https://sandbox.amplopay.com.br/v1"
                   "sk_test" "pay_1")
                (ErrorObj "TypeError" "Load failed") eq_refl).
  discriminate H.
Qed.

(** ** [getPaymentStatus] *)

Lemma getPaymentStatus_run (paymentId : string) (w : World) :
  truthy (apiKey w) = true ->
  let q := status_query paymentId w in
  let r := run (AmploPayService.getPaymentStatus paymentId) w in
  r.2 = inr (payments w !! paymentId) /\
  payments r.1 = payments w /\
  statusCallbacks r.1 = statusCallbacks w /\
  heap r.1 =
    match reported_status q.2, payments w !! paymentId with
    | Some s, Some l => alter (PaymentData.set_status s) l (heap w)
    | _, _ => heap w
    end.
Proof.
  intros Hkey. cbv zeta. unfold status_query, AmploPayService.getPaymentStatus.
  rewrite run_bind. cbn [run perform handle_eff suspends fst snd].
  rewrite Hkey. cbn [negb].
  rewrite run_try_catch, run_bind.
  cbn [run perform handle_eff suspends fst snd].
  rewrite run_bind.
  match goal with |- context [run (AmploPayService.fetchWithRetry ?rq ?n) w] =>
    pose proof (run_io_only (AmploPayService.fetchWithRetry rq n) w
                  (attempts_io_only rq n (S n) 0)) as Hio;
    destruct (run (AmploPayService.fetchWithRetry rq n) w) as [w1 [e | response]]
  end; cbn [fst snd] in Hio; destruct Hio as (Hp & Hh & Hc & _);
    cbn [reported_status fst snd].
  - simpl. rewrite Hp, Hh, Hc. auto.
  - destruct (ok response); cbn [negb].
    + rewrite run_bind. cbn [run perform handle_eff suspends fst snd].
      destruct (json_payment response) as [a |]; cbn [fmap option_fmap option_map].
      * simpl. rewrite Hp.
        destruct (payments w !! paymentId) as [l |] eqn:El; simpl;
          rewrite ?Hp, ?Hh, ?Hc; repeat split.
        apply insert_id. exact El.
      * simpl. rewrite Hp, Hh, Hc. auto.
    + simpl. rewrite Hp, Hh, Hc. auto.
Qed.

(** C2, as the code has it. With a credential configured,
    [getPaymentStatus] never throws: whatever the gateway does, it returns
    the reference cached under the id, or nothing when none is cached; when
    the query fails (no response after the last attempt, a non-2xx
    response, an unreadable body) the cache is left as it was, and
    otherwise the cached record takes the reported status. With no
    credential configured it throws the configuration error and changes
    nothing. *)
Theorem getPaymentStatus_degrades (paymentId : string) (w : World) :
  let r := run (AmploPayService.getPaymentStatus paymentId) w in
  if truthy (apiKey w) then
    r.2 = inr (payments w !! paymentId) /\
    payments r.1 = payments w /\
    heap r.1 =
      match reported_status (status_query paymentId w).2,
            payments w !! paymentId with
      | Some s, Some l => alter (PaymentData.set_status s) l (heap w)
      | _, _ => heap w
      end
  else
    r = (w, inl AmploPayService.missingKeyOnStatus).
Proof.
  cbv zeta. destruct (truthy (apiKey w)) eqn:Hkey.
  - destruct (getPaymentStatus_run paymentId w Hkey) as (Hr & Hp & _ & Hh).
    auto.
  - unfold AmploPayService.getPaymentStatus.
    rewrite run_bind. cbn [run perform handle_eff suspends fst snd].
    rewrite Hkey. reflexivity.
Qed.

(** C2 as stated fails: with no credential configured, [getPaymentStatus]
    throws although a record is cached under the id. *)
Lemma getPaymentStatus_throws_without_key :
  cached keyless_world "pay_1" = Some (sample_payment "pay_1" "pending") /\
  (run (AmploPayService.getPaymentStatus "pay_1") keyless_world).2
    = inl AmploPayService.missingKeyOnStatus.
Proof. split; reflexivity. Qed.

(** C7. The record a successful [createPayment] returns is the one
    [getPaymentStatus] returns for its id right afterwards: the same
    object, with every field but [status] as created, whatever the
    gateway answers to the query. *)
Theorem createPayment_getPaymentStatus_roundtrip
    (request : CreatePaymentRequest.t) (w w1 : World) (l : loc) :
  run (AmploPayService.createPayment request) w = (w1, inr l) ->
  exists p,
    deref w1 l = Some p /\
    cached w1 (PaymentData.id p) = Some p /\
    let r := run (AmploPayService.getPaymentStatus (PaymentData.id p)) w1 in
    r.2 = inr (Some l) /\
    exists p', deref r.1 l = Some p' /\ PaymentData.same_but_status p p'.
Proof.
  intros Hrun. pose proof (createPayment_run request w) as H.
  pose proof (run_config (AmploPayService.createPayment request) w) as (Hk & _).
  cbv zeta in H. rewrite Hrun in *. cbn [fst snd] in *.
  destruct H as (p & Hl & Hh & Hp & _ & Hkey).
  assert (Hd : deref w1 l = Some p).
  { unfold deref. rewrite Hh, Hl. apply list_lookup_middle. reflexivity. }
  assert (Hm : payments w1 !! PaymentData.id p = Some l).
  { rewrite Hp. apply lookup_insert_eq. }
  exists p. split; [exact Hd |]. split.
  { unfold cached. rewrite Hm. exact Hd. }
  cbv zeta.
  destruct (getPaymentStatus_run (PaymentData.id p) w1)
    as (Hr & _ & _ & Hheap); [rewrite Hk; exact Hkey |].
  cbv zeta in *. rewrite Hr, Hm. split; [reflexivity |].
  unfold deref in *. rewrite Hheap, Hm.
  destruct (reported_status _) as [s |].
  - exists (PaymentData.set_status s p). rewrite list_lookup_alter_eq, Hd.
    split; [reflexivity | apply same_but_status_set].
  - exists p. split; [exact Hd |]. destruct p. repeat split.
Qed.

Lemma createPayment_getPaymentStatus_roundtrip_witness :
  let created := run (AmploPayService.createPayment sample_request) paying_world in
  created.2 = inr 0 /\
  exists p,
    deref created.1 0 = Some p /\
    cached created.1 (PaymentData.id p) = Some p /\
    let r := run (AmploPayService.getPaymentStatus (PaymentData.id p)) created.1 in
    r.2 = inr (Some 0) /\
    exists p', deref r.1 0 = Some p' /\ PaymentData.same_but_status p p'.
Proof.
  split; [reflexivity |].
  apply (createPayment_getPaymentStatus_roundtrip sample_request paying_world
           (run (AmploPayService.createPayment sample_request) paying_world).1 0).
  vm_compute. reflexivity.
Defined.

(** ** Poll ticks *)

Lemma run_afterStatus (paymentId : string) (h : handle) (payment : option loc)
    (w : World) :
  run (AmploPayService.afterStatus paymentId h payment) w =
  match payment with
  | Some l =>
      let s := default "" (PaymentData.status <$> heap w !! l) in
      if AmploPayService.terminal s
      then run (AmploPayService.updatePaymentStatus paymentId s)
             (set_timers (remove_timer h) w)
      else (w, inr tt)
  | None => (w, inr tt)
  end.
Proof.
  destruct payment as [l |]; [| reflexivity].
  unfold AmploPayService.afterStatus.
  rewrite run_bind. cbn [run perform handle_eff suspends fst snd].
  cbv zeta. destruct (AmploPayService.terminal _); [| reflexivity].
  rewrite run_bind. reflexivity.
Qed.

(** A poll tick is a status query followed by [afterStatus]; it never
    throws. *)
Lemma run_pollTick (paymentId : string) (h : handle) (w : World) :
  run (AmploPayService.pollTick paymentId h) w =
  match run (AmploPayService.getPaymentStatus paymentId) w with
  | (w1, inr payment) => run (AmploPayService.afterStatus paymentId h payment) w1
  | (w1, inl _) => (w1, inr tt)
  end.
Proof.
  unfold AmploPayService.pollTick. rewrite run_try_catch, run_bind.
  destruct (run (AmploPayService.getPaymentStatus paymentId) w)
    as [w1 [e | payment]]; [reflexivity |].
  rewrite run_afterStatus.
  destruct payment as [l |]; [| reflexivity]. cbv zeta.
  destruct (AmploPayService.terminal _); [| reflexivity].
  rewrite run_updatePaymentStatus. reflexivity.
Qed.

(** Two deliveries of the same status, whoever makes them. *)
Lemma updated_twice (paymentId status : string) (w : World) :
  let w1 := broadcast paymentId status
              (stored paymentId status (notified paymentId status w)) in
  let w2 := broadcast paymentId status
              (stored paymentId status (notified paymentId status w1)) in
  payments w2 = payments w1 /\ heap w2 = heap w1 /\
  statusCallbacks w2 = statusCallbacks w1.
Proof.
  cbv zeta. rewrite !updated_payments, !updated_statusCallbacks, !updated_heap.
  rewrite !updated_payments. repeat split.
  destruct (payments w !! paymentId) as [l |]; [| reflexivity].
  apply list_eq. intros i. destruct (decide (i = l)) as [-> | Hne].
  - rewrite !list_lookup_alter_eq. destruct (heap w !! l) as [p |]; simpl;
      [rewrite set_status_twice |]; reflexivity.
  - rewrite !list_lookup_alter_ne by congruence. reflexivity.
Qed.

(** C5. Delivering the same status twice leaves the cache as one delivery
    does, with the cached status equal to the delivered one, and calls the
    registered listener once per delivery; neither call throws. In
    particular, when the record is already paid, a webhook delivery of
    ["paid"] and a poll tick that finds the record paid, in either order,
    leave the status ["paid"], and neither throws. *)
Theorem updatePaymentStatus_idempotent (w : World) (paymentId status : string) :
  let r1 := run (AmploPayService.updatePaymentStatus paymentId status) w in
  let r2 := run (AmploPayService.updatePaymentStatus paymentId status) r1.1 in
  let calls := match statusCallbacks w !! paymentId with
               | Some cb => [(cb, status)]
               | None => []
               end in
  (r1.2 = inr tt /\ r2.2 = inr tt) /\
  (payments r2.1 = payments r1.1 /\ heap r2.1 = heap r1.1 /\
   statusCallbacks r2.1 = statusCallbacks r1.1) /\
  cached_status r2.1 paymentId = (fun _ => status) <$> cached w paymentId /\
  (listener_calls (trace r1.1) = (listener_calls (trace w) ++ calls)%list /\
   listener_calls (trace r2.1) = (listener_calls (trace r1.1) ++ calls)%list) /\
  (forall (h : handle) (l : loc) (p : PaymentData.t),
     payments w !! paymentId = Some l -> deref w l = Some p ->
     PaymentData.status p = "paid" ->
     let a := run (AmploPayService.processWebhook paymentId "paid") w in
     let b := run (AmploPayService.afterStatus paymentId h (Some l)) a.1 in
     let c := run (AmploPayService.afterStatus paymentId h (Some l)) w in
     let d := run (AmploPayService.processWebhook paymentId "paid") c.1 in
     (a.2 = inr tt /\ b.2 = inr tt /\ cached_status b.1 paymentId = Some "paid") /\
     (c.2 = inr tt /\ d.2 = inr tt /\ cached_status d.1 paymentId = Some "paid")).
Proof.
  cbv zeta. unfold AmploPayService.processWebhook.
  rewrite !run_updatePaymentStatus. cbn [fst snd].
  split; [split; reflexivity |]. split; [apply updated_twice |].
  split.
  { unfold cached_status. rewrite !updated_cached_same.
    destruct (cached w paymentId) as [p |]; [destruct p |]; reflexivity. }
  split.
  { rewrite !updated_trace, !updated_statusCallbacks, !updated_env.
    rewrite !listener_calls_app.
    destruct (statusCallbacks w !! paymentId), (window_origin (env w));
      cbn; rewrite ?app_nil_r; split; reflexivity. }
  intros h l p Hl Hp Hpaid.
  assert (Hc : cached w paymentId = Some p) by (unfold cached; rewrite Hl; exact Hp).
  unfold deref in Hp.
  rewrite !run_afterStatus. cbv zeta.
  rewrite updated_heap, Hl, list_lookup_alter_eq, Hp.
  cbn [fmap option_fmap option_map default from_option id].
  replace (PaymentData.status (PaymentData.set_status "paid" p)) with "paid"
    by (destruct p; reflexivity).
  rewrite Hpaid. change (AmploPayService.terminal "paid") with true. cbv iota.
  rewrite !run_updatePaymentStatus. cbn [fst snd].
  unfold cached_status. rewrite !updated_cached_same.
  change (cached (set_timers (remove_timer h) ?x) paymentId)
    with (cached x paymentId).
  rewrite ?updated_cached_same, Hc.
  split; (split; [reflexivity |]; split; [reflexivity |]);
    destruct p; reflexivity.
Qed.

Lemma updatePaymentStatus_idempotent_witness :
  let a := run (AmploPayService.processWebhook "pay_1" "paid") paid_world in
  let b := run (AmploPayService.afterStatus "pay_1" 7 (Some 0)) a.1 in
  let c := run (AmploPayService.afterStatus "pay_1" 7 (Some 0)) paid_world in
  let d := run (AmploPayService.processWebhook "pay_1" "paid") c.1 in
  (a.2 = inr tt /\ b.2 = inr tt /\ cached_status b.1 "pay_1" = Some "paid") /\
  (c.2 = inr tt /\ d.2 = inr tt /\ cached_status d.1 "pay_1" = Some "paid").
Proof.
  destruct (updatePaymentStatus_idempotent paid_world "pay_1" "paid")
    as (_ & _ & _ & _ & H).
  apply (H 7 0 (sample_payment "pay_1" "paid")); reflexivity.
Defined.

(** ** Footprints of the service methods *)

Ltac footprint :=
  repeat (
    match goal with
    | |- forall _, _ => intro
    | |- all_effects _ (bind _ _) => apply all_effects_bind
    | |- all_effects _ (try_catch _ _) => apply all_effects_try_catch
    | |- all_effects _ (perform _) => apply all_effects_perform; try reflexivity
    | |- all_effects _ (Ret _) => apply all_ret
    | |- all_effects _ (Throw _) => apply all_throw
    | |- all_effects _ (if ?b then _ else _) => destruct b
    | |- all_effects _ (match ?x with _ => _ end) => destruct x
    end).

Lemma attempts_timerless (req : Request) (retries n i : nat) :
  all_effects (fun X e => timerless e = true)
    (AmploPayService.attempts req retries n i).
Proof.
  eapply all_effects_weaken; [| apply attempts_io_only].
  intros X e. destruct e; simpl; congruence.
Qed.

Lemma updatePaymentStatus_timerless (paymentId status : string) :
  all_effects (fun X e => timerless e = true)
    (AmploPayService.updatePaymentStatus paymentId status).
Proof. unfold AmploPayService.updatePaymentStatus. footprint. Qed.

Lemma mock_updatePaymentStatus_timerless (paymentId status : string) :
  all_effects (fun X e => timerless e = true)
    (MockPaymentService.updatePaymentStatus paymentId status).
Proof. unfold MockPaymentService.updatePaymentStatus. footprint. Qed.

Lemma getPaymentStatus_timerless (paymentId : string) :
  all_effects (fun X e => timerless e = true)
    (AmploPayService.getPaymentStatus paymentId).
Proof.
  unfold AmploPayService.getPaymentStatus. footprint.
  apply attempts_timerless.
Qed.

Lemma createPayment_timerless (request : CreatePaymentRequest.t) :
  all_effects (fun X e => timerless e = true)
    (AmploPayService.createPayment request).
Proof.
  unfold AmploPayService.createPayment, AmploPayService.rejectResponse,
    AmploPayService.generateQRCodeImage.
  footprint. apply attempts_timerless.
Qed.



(** ** The polling ceiling *)

Lemma Forall_remove_timer (P : Timer -> Prop) (g : handle) (ts : list Timer) :
  Forall P ts -> Forall P (remove_timer g ts).
Proof.
  rewrite !Forall_forall. intros H t Ht.
  apply list_elem_of_filter in Ht as [_ Ht]. auto.
Qed.



Section CeilingInvariant.
Variables (stop : Timer) (h : handle).
Hypothesis stop_once : t_period stop = None.
Hypothesis stop_clears : t_action stop = StopPolling h.
Hypothesis stop_other : h <> t_handle stop.





Lemma handle_eff_loop {X} (e : Eff X) (w : World) :
  tasks (handle_eff e w).1.1 = tasks w /\ now (handle_eff e w).1.1 = now w.
Proof.
  destruct e; cbn [handle_eff fst]; try (split; reflexivity).
  - destruct (settle _ _); split; reflexivity.
Qed.






End CeilingInvariant.

(** [startPaymentPolling] adds the interval and the ceiling timer and
    nothing else. *)
Lemma resume_startPaymentPolling (paymentId : string) (intervalMs : Z) (w : World) :
  resume (AmploPayService.startPaymentPolling paymentId intervalMs) w =
  set_next_handle (fun n => S (S n))
    (set_timers
       (fun ts => ts ++ [ {| t_handle := next_handle w;
                             t_due := (now w + Z.max 0 intervalMs)%Z;
                             t_period := Some (Z.max 0 intervalMs);
                             t_action := PollTick paymentId |};
                          ceiling_timer w ])%list w).
Proof.
  unfold ceiling_timer. cbn. unfold set_next_handle, set_timers. cbn.
  rewrite <- app_assoc. reflexivity.
Qed.


Lemma well_formed_initial key base e : well_formed (initial key base e).
Proof. split; constructor. Qed.



Lemma steps_after_ceiling : steps polling_world after_ceiling.
Proof.
  unfold after_ceiling.
  eapply steps_step; [eapply steps_step; [apply steps_refl |] |].
  - apply step_timer.
    + apply list_elem_of_further, list_elem_of_here.
    + unfold earliest, AmploPayService.pollingCeiling. cbn.
      split; repeat (once constructor); vm_compute; discriminate.
  - apply step_call.
    + vm_compute. discriminate.
    + unfold earliest. cbn. split; constructor.
Qed.


(** ** The simulated implementation *)

Lemma truthy_app (a b : string) : truthy a = true -> truthy (a ++ b) = true.
Proof. destruct a; [discriminate | reflexivity]. Qed.

Lemma bump_random_0 (w : World) : bump_random 0 w = w.
Proof. destruct w; reflexivity. Qed.

Lemma run_appendRandom (n bound : nat) (result : string) (w : World) :
  exists s,
    run (MockPaymentService.appendRandom n bound result) w
      = (bump_random n w, inr s) /\
    (truthy result = true -> truthy s = true).
Proof.
  revert result w. induction n as [| n IH]; intros result w.
  - exists result. cbn. rewrite bump_random_0. auto.
  - cbn [MockPaymentService.appendRandom bind perform run handle_eff suspends].
    destruct (IH (result ++ MockPaymentService.charAt
                              (random (env w) (randoms w) mod bound)
                              MockPaymentService.chars)
                 (count_random w)) as (s & Hrun & Htruthy).
    exists s. rewrite Hrun. split.
    + unfold bump_random, count_random. cbn. do 2 f_equal. f_equal. lia.
    + intros H. apply Htruthy, truthy_app, H.
Qed.

Lemma run_generateMockPixCode (w : World) :
  exists pixCode,
    run MockPaymentService.generateMockPixCode w
      = (bump_random 36 w, inr pixCode) /\
    truthy pixCode = true.
Proof.
  unfold MockPaymentService.generateMockPixCode. rewrite run_bind.
  destruct (run_appendRandom 32 (String.length MockPaymentService.chars)
              "00020126580014BR.GOV.BCB.PIX0136" w) as (s1 & -> & H1).
  match goal with |- context [MockPaymentService.appendRandom 4 10 ?r] =>
    destruct (run_appendRandom 4 10 r (bump_random 32 w)) as (s2 & -> & H2)
  end.
  exists s2. split; [reflexivity |].
  apply H2, truthy_app, H1. reflexivity.
Qed.




Lemma run_createPayment_without_key (request : CreatePaymentRequest.t) (w : World) :
  truthy (apiKey w) = false ->
  run (AmploPayService.createPayment request) w
    = (w, inl AmploPayService.missingKeyOnCreate).
Proof.
  intros Hkey. unfold AmploPayService.createPayment.
  rewrite run_bind. cbn [run perform handle_eff suspends]. rewrite Hkey.
  reflexivity.
Qed.




(** ** The cache stays sound *)

Lemma sound_cache_createPayment (request : CreatePaymentRequest.t) (w : World) :
  sound_cache w -> sound_cache (run (AmploPayService.createPayment request) w).1.
Proof.
  intros [Hv Hinj]. pose proof (createPayment_run request w) as H. cbv zeta in H.
  destruct (run (AmploPayService.createPayment request) w) as [w' [e | l]];
    cbn [fst snd] in *.
  - destruct H as (Hp & Hh & _). split; rewrite Hp, ?Hh; assumption.
  - destruct H as (p & -> & Hh & Hp & _). split.
    + intros i l. rewrite Hp, Hh, length_app. cbn.
      destruct (decide (i = PaymentData.id p)) as [-> | Hne].
      * rewrite lookup_insert_eq. intros [= <-]. lia.
      * rewrite lookup_insert_ne by congruence. intros Hi.
        specialize (Hv i l Hi). lia.
    + intros i j l. rewrite Hp.
      destruct (decide (i = PaymentData.id p)) as [-> | Hi],
               (decide (j = PaymentData.id p)) as [-> | Hj];
        rewrite ?lookup_insert_eq, ?lookup_insert_ne by congruence.
      * reflexivity.
      * intros [= <-] Hl. specialize (Hv j _ Hl). lia.
      * intros Hl [= <-]. specialize (Hv i _ Hl). lia.
      * apply Hinj.
Qed.

Lemma sound_cache_getPaymentStatus (paymentId : string) (w : World) :
  sound_cache w -> sound_cache (run (AmploPayService.getPaymentStatus paymentId) w).1.
Proof.
  intros [Hv Hinj].
  pose proof (getPaymentStatus_degrades paymentId w) as H. cbv zeta in H.
  destruct (truthy (apiKey w)).
  - destruct H as (_ & Hp & Hh). split; rewrite Hp; [| exact Hinj].
    rewrite Hh. intros i l Hi.
    destruct (reported_status _), (payments w !! paymentId);
      rewrite ?length_alter; eauto.
  - rewrite H. split; assumption.
Qed.

Lemma sound_cache_updatePaymentStatus (paymentId status : string) (w : World) :
  sound_cache w ->
  sound_cache (run (AmploPayService.updatePaymentStatus paymentId status) w).1.
Proof. rewrite run_updatePaymentStatus. apply updated_sound. Qed.

Lemma sound_cache_onStatusUpdate (paymentId : string) (cb : Callback) (w : World) :
  sound_cache w ->
  sound_cache (run (AmploPayService.onStatusUpdate paymentId cb) w).1.
Proof. intros H. exact H. Qed.

Lemma sound_cache_pollTick (paymentId : string) (h : handle) (w : World) :
  sound_cache w -> sound_cache (run (AmploPayService.pollTick paymentId h) w).1.
Proof.
  intros Hs. rewrite run_pollTick.
  pose proof (sound_cache_getPaymentStatus paymentId w Hs) as H.
  destruct (run (AmploPayService.getPaymentStatus paymentId) w) as [w1 [e | payment]];
    cbn [fst] in *; [exact H |].
  rewrite run_afterStatus. destruct payment as [l |]; [| exact H]. cbv zeta.
  destruct (AmploPayService.terminal _); [| exact H].
  rewrite run_updatePaymentStatus. apply updated_sound. exact H.
Qed.

(** * Further properties of the code *)

(** ** Invariants of the cache *)

Lemma keyed_updated (paymentId status : string) (w : World) :
  keyed_by_id w ->
  keyed_by_id (broadcast paymentId status
                 (stored paymentId status (notified paymentId status w))).
Proof.
  intros Hk i l p. unfold deref.
  rewrite updated_payments, updated_heap. intros Hi Hp.
  destruct (payments w !! paymentId) as [l0 |]; [| eapply Hk; eassumption].
  destruct (decide (l0 = l)) as [-> | Hne].
  - rewrite list_lookup_alter_eq in Hp.
    destruct (heap w !! l) as [q |] eqn:Hq; [| discriminate].
    injection Hp as <-. specialize (Hk i l q Hi Hq). destruct q; exact Hk.
  - rewrite list_lookup_alter_ne in Hp by exact Hne. eapply Hk; eassumption.
Qed.

Lemma keyed_alter_status (s : string) (l0 : nat) (w w' : World) :
  payments w' = payments w ->
  heap w' = alter (PaymentData.set_status s) l0 (heap w) ->
  keyed_by_id w -> keyed_by_id w'.
Proof.
  intros Hp Hh Hk i l p. unfold deref. rewrite Hp, Hh. intros Hi Hq.
  destruct (decide (l0 = l)) as [-> | Hne].
  - rewrite list_lookup_alter_eq in Hq.
    destruct (heap w !! l) as [q |] eqn:Eq; [| discriminate].
    injection Hq as <-. specialize (Hk i l q Hi Eq). destruct q; exact Hk.
  - rewrite list_lookup_alter_ne in Hq by exact Hne. eapply Hk; eassumption.
Qed.

Lemma keyed_same (w w' : World) :
  payments w' = payments w -> heap w' = heap w ->
  keyed_by_id w -> keyed_by_id w'.
Proof. intros Hp Hh Hk i l p. unfold deref. rewrite Hp, Hh. apply Hk. Qed.

(** Adding a fresh record under its own id. *)
Lemma consistent_insert (p : PaymentData.t) (w w' : World) :
  heap w' = (heap w ++ [p])%list ->
  payments w' = <[PaymentData.id p := length (heap w)]> (payments w) ->
  consistent w -> consistent w'.
Proof.
  intros Hh Hp [[Hv Hinj] Hk]. split; [split |].
  - intros i l. rewrite Hp, Hh, length_app. cbn.
    destruct (decide (i = PaymentData.id p)) as [-> | Hne].
    + rewrite lookup_insert_eq. intros [= <-]. lia.
    + rewrite lookup_insert_ne by congruence. intros Hi.
      specialize (Hv i l Hi). lia.
  - intros i j l. rewrite Hp.
    destruct (decide (i = PaymentData.id p)) as [-> | Hi],
             (decide (j = PaymentData.id p)) as [-> | Hj];
      rewrite ?lookup_insert_eq, ?lookup_insert_ne by congruence.
    + reflexivity.
    + intros [= <-] Hl. specialize (Hv j _ Hl). lia.
    + intros Hl [= <-]. specialize (Hv i _ Hl). lia.
    + apply Hinj.
  - intros i l q. unfold deref. rewrite Hp, Hh.
    destruct (decide (i = PaymentData.id p)) as [-> | Hi].
    + rewrite lookup_insert_eq. intros [= <-].
      rewrite list_lookup_middle by reflexivity. intros [= <-]. reflexivity.
    + rewrite lookup_insert_ne by congruence. intros Hl.
      specialize (Hv i l Hl). rewrite lookup_app_l by exact Hv.
      apply Hk. exact Hl.
Qed.

(** The mock's [createPayment], whether or not the QR encoder works. *)
Lemma mock_createPayment_run (request : CreatePaymentRequest.t) (w : World) :
  let r := run (MockPaymentService.createPayment request) w in
  match r.2 with
  | inl e =>
      e = Error "Erro ao gerar QR Code" /\
      payments r.1 = payments w /\ heap r.1 = heap w /\
      statusCallbacks r.1 = statusCallbacks w /\ timers r.1 = timers w
  | inr l =>
      exists p,
        l = length (heap w) /\ heap r.1 = (heap w ++ [p])%list /\
        payments r.1 = <[PaymentData.id p := l]> (payments w) /\
        statusCallbacks r.1 = statusCallbacks w /\
        PaymentData.id p = uuid (env w) (uuids w) /\
        PaymentData.status p = "pending"
  end.
Proof.
  cbv zeta. unfold MockPaymentService.createPayment.
  rewrite run_bind. cbn [run perform handle_eff suspends].
  rewrite run_bind. cbn [run perform handle_eff suspends].
  rewrite run_bind.
  match goal with |- context [run MockPaymentService.generateMockPixCode ?w0] =>
    destruct (run_generateMockPixCode w0) as (pixCode & -> & Htruthy)
  end.
  rewrite run_bind. unfold MockPaymentService.generateQRCodeImage.
  cbn [bind perform run handle_eff suspends].
  cbn [env bump_random count_uuid set_now log].
  destruct (qrcode (env w) pixCode) as [image |].
  - cbn. eexists. repeat split.
  - cbn. repeat split.
Qed.

(** X1. The cache invariant: a world whose cache is consistent (valid
    references, no record under two ids, every record under its own id)
    stays so through every method of the gateway client and through the
    mock's [createPayment]. *)
Theorem consistent_preserved (w : World) :
  consistent w ->
  (forall request, consistent (run (AmploPayService.createPayment request) w).1) /\
  (forall paymentId, consistent (run (AmploPayService.getPaymentStatus paymentId) w).1) /\
  (forall paymentId cb, consistent (run (AmploPayService.onStatusUpdate paymentId cb) w).1) /\
  (forall paymentId status,
     consistent (run (AmploPayService.updatePaymentStatus paymentId status) w).1 /\
     consistent (run (AmploPayService.processWebhook paymentId status) w).1) /\
  (forall paymentId h, consistent (run (AmploPayService.pollTick paymentId h) w).1) /\
  (forall paymentId ms,
     consistent (run (AmploPayService.startPaymentPolling paymentId ms) w).1) /\
  (forall request, consistent (run (MockPaymentService.createPayment request) w).1).
Proof.
  intros Hc.
  assert (Hget : forall w0 paymentId, consistent w0 ->
            consistent (run (AmploPayService.getPaymentStatus paymentId) w0).1).
  { intros w0 paymentId [Hs Hk]. split; [apply sound_cache_getPaymentStatus, Hs |].
    pose proof (getPaymentStatus_degrades paymentId w0) as H. cbv zeta in H.
    destruct (truthy (apiKey w0)); [| rewrite H; exact Hk].
    destruct H as (_ & Hp & Hh).
    destruct (reported_status _) as [s |]; [| eapply keyed_same; eassumption].
    destruct (payments w0 !! paymentId) as [l |];
      [eapply keyed_alter_status | eapply keyed_same]; eassumption. }
  assert (Hupd : forall w0 paymentId status, consistent w0 ->
            consistent (run (AmploPayService.updatePaymentStatus paymentId status) w0).1).
  { intros w0 paymentId status [Hs Hk]. rewrite run_updatePaymentStatus.
    split; [apply updated_sound, Hs | apply keyed_updated, Hk]. }
  split; [| split; [| split; [| split; [| split; [| split]]]]].
  - intros request. pose proof (createPayment_run request w) as H. cbv zeta in H.
    destruct (run (AmploPayService.createPayment request) w) as [w' [e | l]];
      cbn [fst snd] in *.
    + destruct H as (Hp & Hh & _). destruct Hc as [[Hv Hinj] Hk].
      split; [split |]; [rewrite Hp, Hh; exact Hv | rewrite Hp; exact Hinj |].
      eapply keyed_same; eassumption.
    + destruct H as (p & -> & Hh & Hp & _). eapply consistent_insert; eassumption.
  - intros paymentId. apply Hget, Hc.
  - intros paymentId cb. exact Hc.
  - intros paymentId status. split; apply Hupd, Hc.
  - intros paymentId h. rewrite run_pollTick.
    pose proof (Hget w paymentId Hc) as H.
    destruct (run (AmploPayService.getPaymentStatus paymentId) w)
      as [w1 [e | payment]]; cbn [fst] in *; [exact H |].
    rewrite run_afterStatus. destruct payment as [l |]; [| exact H]. cbv zeta.
    destruct (AmploPayService.terminal _); [| exact H].
    apply Hupd. exact H.
  - intros paymentId ms. exact Hc.
  - intros request. pose proof (mock_createPayment_run request w) as H.
    cbv zeta in H.
    destruct (run (MockPaymentService.createPayment request) w) as [w' [e | l]];
      cbn [fst snd] in *.
    + destruct H as (_ & Hp & Hh & _). destruct Hc as [[Hv Hinj] Hk].
      split; [split |]; [rewrite Hp, Hh; exact Hv | rewrite Hp; exact Hinj |].
      eapply keyed_same; eassumption.
    + destruct H as (p & -> & Hh & Hp & _). eapply consistent_insert; eassumption.
Qed.

Lemma consistent_initial key base e : consistent (initial key base e).
Proof.
  split; [apply sound_cache_initial |].
  intros i l p. cbn. rewrite lookup_empty. discriminate.
Qed.

Lemma consistent_sample : consistent sample_world.
Proof.
  split; [apply sound_cache_sample |].
  intros i l p Hi. cbn in Hi.
  destruct (decide (i = "pay_1")) as [-> | N1];
    [rewrite lookup_insert_eq in Hi | rewrite lookup_insert_ne in Hi by congruence].
  - injection Hi as <-. intros [= <-]. reflexivity.
  - destruct (decide (i = "pay_2")) as [-> | N2];
      [rewrite lookup_insert_eq in Hi | rewrite lookup_insert_ne in Hi by congruence].
    + injection Hi as <-. intros [= <-]. reflexivity.
    + rewrite lookup_empty in Hi. discriminate.
Qed.

Lemma consistent_preserved_witness :
  (forall request,
     consistent (run (AmploPayService.createPayment request) sample_world).1) /\
  (forall paymentId,
     consistent (run (AmploPayService.getPaymentStatus paymentId) sample_world).1) /\
  (forall paymentId cb,
     consistent (run (AmploPayService.onStatusUpdate paymentId cb) sample_world).1) /\
  (forall paymentId status,
     consistent (run (AmploPayService.updatePaymentStatus paymentId status) sample_world).1 /\
     consistent (run (AmploPayService.processWebhook paymentId status) sample_world).1) /\
  (forall paymentId h,
     consistent (run (AmploPayService.pollTick paymentId h) sample_world).1) /\
  (forall paymentId ms,
     consistent (run (AmploPayService.startPaymentPolling paymentId ms) sample_world).1) /\
  (forall request,
     consistent (run (MockPaymentService.createPayment request) sample_world).1).
Proof. exact (consistent_preserved sample_world consistent_sample). Defined.

(** ** What the gateway calls never do *)

Lemma broadcasts_app (a b : list Event) :
  broadcasts (a ++ b) = (broadcasts a ++ broadcasts b)%list.
Proof. unfold broadcasts. apply omap_app. Qed.

Lemma run_silent {R} (m : Async R) (w : World) :
  all_effects (fun X e => silent e = true) m ->
  listener_calls (trace (run m w).1) = listener_calls (trace w) /\
  broadcasts (trace (run m w).1) = broadcasts (trace w) /\
  statusCallbacks (run m w).1 = statusCallbacks w /\
  timers (run m w).1 = timers w /\
  next_handle (run m w).1 = next_handle w.
Proof.
  intros Hm. revert w.
  induction Hm as [r | e | X e k He Hk IH]; intros w; cbn [run fst]; auto.
  destruct e; try discriminate He; cbn [handle_eff suspends];
    try (rewrite (proj1 (IH _ _)), (proj1 (proj2 (IH _ _))),
           (proj1 (proj2 (proj2 (IH _ _)))),
           (proj1 (proj2 (proj2 (proj2 (IH _ _))))),
           (proj2 (proj2 (proj2 (proj2 (IH _ _))))); auto; fail).
  - destruct (settle _ _) as [r d].
    destruct (IH r (set_now (fun t => (t + d)%Z)
                      (log (EvFetch req (now w) (now w + d)) (count_fetch w))))
      as (-> & -> & -> & -> & ->).
    cbn. rewrite listener_calls_app, broadcasts_app. cbn.
    rewrite !app_nil_r. auto.
  - destruct (IH tt (set_now (fun t => (t + Z.max 0 ms)%Z) (log (EvDelay ms) w)))
      as (-> & -> & -> & -> & ->).
    cbn. rewrite listener_calls_app, broadcasts_app. cbn.
    rewrite !app_nil_r. auto.
Qed.

Lemma attempts_silent (req : Request) (retries n i : nat) :
  all_effects (fun X e => silent e = true)
    (AmploPayService.attempts req retries n i).
Proof.
  eapply all_effects_weaken; [| apply attempts_io_only].
  intros X e. destruct e; simpl; congruence.
Qed.

Lemma getPaymentStatus_silent (paymentId : string) :
  all_effects (fun X e => silent e = true)
    (AmploPayService.getPaymentStatus paymentId).
Proof.
  unfold AmploPayService.getPaymentStatus. footprint. apply attempts_silent.
Qed.



(** ** Ticks that leave the polling running *)

(** X3. A poll tick never throws. A tick whose query does not end with a
    record in a terminal status (nothing cached, a pending record, or a
    status outside the three terminal ones) is the query and nothing more:
    the interval keeps running and nobody is notified. With no credential
    configured a tick changes nothing at all. *)
Theorem pollTick_keeps_polling (paymentId : string) (h : handle) (w : World) :
  (run (AmploPayService.pollTick paymentId h) w).2 = inr tt /\
  (found_terminal (run (AmploPayService.getPaymentStatus paymentId) w) = false ->
   run (AmploPayService.pollTick paymentId h) w
     = ((run (AmploPayService.getPaymentStatus paymentId) w).1, inr tt) /\
   timers (run (AmploPayService.pollTick paymentId h) w).1 = timers w /\
   listener_calls (trace (run (AmploPayService.pollTick paymentId h) w).1)
     = listener_calls (trace w) /\
   broadcasts (trace (run (AmploPayService.pollTick paymentId h) w).1)
     = broadcasts (trace w)) /\
  (truthy (apiKey w) = false ->
   run (AmploPayService.pollTick paymentId h) w = (w, inr tt)).
Proof.
  split; [| split].
  - rewrite run_pollTick.
    destruct (run (AmploPayService.getPaymentStatus paymentId) w)
      as [w1 [e | payment]]; [reflexivity |].
    rewrite run_afterStatus. destruct payment as [l |]; [| reflexivity].
    cbv zeta. destruct (AmploPayService.terminal _); [| reflexivity].
    rewrite run_updatePaymentStatus. reflexivity.
  - intros Hq. rewrite run_pollTick.
    destruct (run_silent _ w (getPaymentStatus_silent paymentId))
      as (H1 & H2 & _ & H4 & _).
    unfold found_terminal in Hq.
    destruct (run (AmploPayService.getPaymentStatus paymentId) w)
      as [w1 [e | payment]]; cbn [fst snd] in *; [auto |].
    rewrite run_afterStatus. destruct payment as [l |]; [| auto].
    cbv zeta. rewrite Hq. auto.
  - intros Hkey. rewrite run_pollTick.
    pose proof (getPaymentStatus_degrades paymentId w) as H. cbv zeta in H.
    rewrite Hkey in H. rewrite H. reflexivity.
Qed.

Lemma pollTick_keeps_polling_witness :
  (found_terminal (run (AmploPayService.getPaymentStatus "pay_1") sample_world) = false /\
   timers (run (AmploPayService.pollTick "pay_1" 0) polling_world).1
     = timers polling_world) /\
  run (AmploPayService.pollTick "pay_1" 0) keyless_world = (keyless_world, inr tt).
Proof.
  split; [split; [vm_compute; reflexivity |] |].
  - destruct (pollTick_keeps_polling "pay_1" 0 polling_world) as (_ & H & _).
    destruct H as (_ & Ht & _); [vm_compute; reflexivity | exact Ht].
  - destruct (pollTick_keeps_polling "pay_1" 0 keyless_world) as (_ & _ & H).
    apply H. reflexivity.
Defined.

(** ** Timer ids stay known *)

Lemma below_mono (n n' : nat) {X} (e : Eff X) : n <= n' -> below n e -> below n' e.
Proof.
  intros Hle. destruct e; cbn; auto; try lia.
  all: destruct a; auto; lia.
Qed.

Lemma all_below_mono (n n' : nat) {R} (m : Async R) :
  n <= n' ->
  all_effects (fun X e => below n e) m -> all_effects (fun X e => below n' e) m.
Proof.
  intros Hle. apply all_effects_weaken. intros X e. apply below_mono, Hle.
Qed.

Lemma timerless_below (n : nat) {R} (m : Async R) :
  all_effects (fun X e => timerless e = true) m ->
  all_effects (fun X e => below n e) m.
Proof.
  apply all_effects_weaken. intros X e. destruct e; simpl; congruence || auto.
Qed.

Lemma pollTick_below (n g : handle) (paymentId : string) :
  g < n -> all_effects (fun X e => below n e) (AmploPayService.pollTick paymentId g).
Proof.
  intros Hlt. unfold AmploPayService.pollTick, AmploPayService.afterStatus.
  footprint; try exact I; try exact Hlt.
  - apply timerless_below, getPaymentStatus_timerless.
  - apply timerless_below, updatePaymentStatus_timerless.
Qed.

Lemma well_formed_ext (w w' : World) :
  timers w' = timers w -> next_handle w' = next_handle w -> tasks w' = tasks w ->
  well_formed w -> well_formed w'.
Proof. unfold well_formed. intros -> -> ->. auto. Qed.

Lemma well_formed_add_timer (period : option Z) (a : TimerAction) (ms : Z)
    (w : World) :
  (forall g, a = StopPolling g -> g <= next_handle w) ->
  well_formed w -> well_formed (add_timer period a ms w).1.
Proof.
  intros Ha [Ht Hj]. unfold well_formed, add_timer. cbn. split.
  - apply Forall_app. split.
    + eapply Forall_impl; [exact Ht |]. cbn. intros x [H1 H2]. split; [lia |].
      destruct (t_action x); auto; lia.
    + apply Forall_singleton. cbn. split; [lia |].
      destruct a as [i | g | i]; auto. specialize (Ha g eq_refl). lia.
  - eapply Forall_impl; [exact Hj |]. cbn. intros j. apply all_below_mono. lia.
Qed.

Lemma well_formed_eff {X} (e : Eff X) (w : World) :
  below (next_handle w) e ->
  well_formed w ->
  well_formed (handle_eff e w).1.1 /\
  next_handle w <= next_handle (handle_eff e w).1.1.
Proof.
  intros He Hwf.
  destruct e; cbn [handle_eff fst];
    try (split; [eapply well_formed_ext; [.. | exact Hwf]; reflexivity
                | cbn; lia]).
  - destruct (settle _ _) as [r d]. cbn [fst].
    split; [eapply well_formed_ext; [.. | exact Hwf]; reflexivity | cbn; lia].
  - pose proof (well_formed_add_timer None a ms w) as H.
    unfold add_timer in *. cbn in *. split; [| lia]. apply H; [| exact Hwf].
    intros g ->. cbn in He. lia.
  - pose proof (well_formed_add_timer (Some (Z.max 0 ms)) a ms w) as H.
    unfold add_timer in *. cbn in *. split; [| lia]. apply H; [| exact Hwf].
    intros g ->. cbn in He. lia.
  - destruct Hwf as [Ht Hj]. split; [| cbn; lia]. split; cbn.
    + apply Forall_remove_timer. exact Ht.
    + exact Hj.
Qed.

Lemma well_formed_resume (m : Async unit) (n : nat) (w : World) :
  all_effects (fun X e => below n e) m -> n <= next_handle w ->
  well_formed w -> well_formed (resume m w).
Proof.
  intros Hm. revert w.
  induction Hm as [r | e | X e k He Hk IH]; intros w Hn Hwf; cbn [resume].
  - exact Hwf.
  - eapply well_formed_ext; [.. | exact Hwf]; reflexivity.
  - destruct (well_formed_eff e w (below_mono n _ e Hn He) Hwf) as [H Hle].
    pose proof (handle_eff_loop e w) as [Htk _].
    destruct (handle_eff e w) as [[w' x] d]. cbn [fst] in *.
    destruct (suspends e); [| apply IH; [lia | exact H]].
    destruct H as [Ht Hj]. split; cbn; [exact Ht |].
    apply Forall_app. split; [exact Hj |]. apply Forall_singleton. cbn.
    eapply all_below_mono; [| apply Hk]. lia.
Qed.

Lemma well_formed_rearm (t : Timer) (f : Z -> Z) (w : World) :
  well_formed w -> well_formed (set_timers (rearm t) (set_now f w)).
Proof.
  intros [Ht Hj]. split; cbn; [| exact Hj]. unfold rearm.
  destruct (t_period t) as [p |]; [| apply Forall_remove_timer; exact Ht].
  apply Forall_fmap. eapply Forall_impl; [exact Ht |]. intros x Hx. cbn.
  destruct (decide (t_handle x = t_handle t)); exact Hx.
Qed.

Lemma well_formed_step (w w' : World) :
  well_formed w -> step w w' -> well_formed w'.
Proof.
  intros Hwf Hstep. destruct Hstep as [w t Ht _ | w i j Hj _ | w c at_ _ _].
  - unfold fire.
    assert (Hb : t_handle t < next_handle w /\
                 match t_action t with
                 | StopPolling g => g < next_handle w
                 | _ => True
                 end).
    { destruct Hwf as [H _]. rewrite Forall_forall in H. apply H, Ht. }
    apply well_formed_resume with (n := next_handle w);
      [| cbn; lia | apply well_formed_rearm, Hwf].
    destruct Hb as [Hh Ha].
    destruct (t_action t) as [paymentId | g | paymentId]; cbn [timer_body].
    + apply pollTick_below, Hh.
    + apply all_effects_perform. exact Ha.
    + apply timerless_below, mock_updatePaymentStatus_timerless.
  - unfold wake.
    assert (Hb : all_effects (fun X e => below (next_handle w) e) j.2).
    { destruct Hwf as [_ H]. eapply Forall_lookup_1 in H; [| exact Hj]. exact H. }
    apply well_formed_resume with (n := next_handle w); [exact Hb | cbn; lia |].
    destruct Hwf as [Ht Hq]. split; cbn; [exact Ht |].
    apply Forall_delete. exact Hq.
  - assert (Hwf' : well_formed (set_now (fun _ => at_) w)) by exact Hwf.
    destruct c as [a d ts | i cb | i ms | i s]; cbn [call_body].
    + apply well_formed_resume with (n := 0); [| lia | exact Hwf'].
      apply all_effects_bind; [| intros; apply all_ret].
      apply timerless_below, createPayment_timerless.
    + apply well_formed_resume with (n := 0); [| lia | exact Hwf'].
      apply all_effects_perform. exact I.
    + set (w0 := set_now (fun _ => at_) w) in *.
      change (resume (AmploPayService.startPaymentPolling i ms) w0)
        with (add_timer None (StopPolling (next_handle w0))
                AmploPayService.pollingCeiling
                (add_timer (Some (Z.max 0 ms)) (PollTick i) ms w0).1).1.
      apply well_formed_add_timer.
      * intros g [= <-]. cbn. lia.
      * apply well_formed_add_timer; [discriminate | exact Hwf'].
    + apply well_formed_resume with (n := 0); [| lia | exact Hwf'].
      apply timerless_below, updatePaymentStatus_timerless.
Qed.

(** X4. The service only ever cancels timers it knows: in every world the
    event loop reaches from a well-formed one (a fresh page is), each id
    that a pending timer or a suspended call will pass to [clearInterval]
    has been handed out by [setInterval] or [setTimeout]. *)
Theorem well_formed_reachable (w w' : World) :
  well_formed w -> steps w w' -> well_formed w'.
Proof.
  intros Hwf Hsteps. induction Hsteps as [w | w1 w2 w3 _ IH Hstep]; [exact Hwf |].
  eapply well_formed_step; [apply IH, Hwf | exact Hstep].
Qed.

Lemma well_formed_polling : well_formed polling_world.
Proof. split; cbn; repeat constructor; cbn; lia. Qed.

Lemma well_formed_reachable_witness : well_formed after_ceiling.
Proof.
  exact (well_formed_reachable polling_world after_ceiling
           well_formed_polling steps_after_ceiling).
Defined.

(** ** How long a gateway call takes *)

Lemma retry_budget_nonneg (n i : nat) : (0 <= retry_budget n i)%Z.
Proof.
  revert i. induction n as [| n IH]; intros i; cbn [retry_budget]; [lia |].
  specialize (IH (S i)). lia.
Qed.

Lemma attempts_elapsed (req : Request) (retries : nat) :
  forall (n i : nat) (w : World), i + n = retries ->
  let r := run (AmploPayService.attempts req retries (S n) i) w in
  (now w <= now r.1 <= now w + retry_budget n i)%Z.
Proof.
  induction n as [| n IH]; intros i w Hi; cbv zeta; rewrite run_attempts_S;
    pose proof (settle_bound 15000 (network (env w) (fetches w)) ltac:(lia)) as Hb;
    destruct (settle 15000 (network (env w) (fetches w)))
      as [[e | response] d]; cbn [fst snd] in Hb; cbv zeta.
  - replace (i =? retries)%nat with true by (symmetry; apply Nat.eqb_eq; lia).
    cbn. lia.
  - cbn. lia.
  - replace (i =? retries)%nat with false by (symmetry; apply Nat.eqb_neq; lia).
    match goal with |- context [run _ ?w2] =>
      specialize (IH (S i) w2 ltac:(lia))
    end.
    cbv zeta in IH. cbn [now set_now log count_fetch] in IH.
    cbn [retry_budget]. unfold AmploPayService.retryDelay in *. lia.
  - pose proof (retry_budget_nonneg n (S i)).
    cbn [fst now set_now log count_fetch retry_budget]. lia.
Qed.

(** When nothing answers, the loop uses its whole budget and the last
    abort surfaces as the timeout error. *)
Lemma attempts_dead_network (req : Request) (retries : nat) :
  forall (n i : nat) (w : World), i + n = retries ->
  (forall k, k <= n -> network (env w) (fetches w + k) = NoAnswer) ->
  let r := run (AmploPayService.attempts req retries (S n) i) w in
  r.2 = inl AmploPayService.timeoutError /\
  now r.1 = (now w + retry_budget n i)%Z.
Proof.
  induction n as [| n IH]; intros i w Hi Hdead; cbv zeta; rewrite run_attempts_S;
    pose proof (Hdead 0 ltac:(lia)) as H0; rewrite Nat.add_0_r in H0;
    rewrite H0; cbn [settle]; cbv zeta.
  - replace (i =? retries)%nat with true by (symmetry; apply Nat.eqb_eq; lia).
    split; reflexivity.
  - replace (i =? retries)%nat with false by (symmetry; apply Nat.eqb_neq; lia).
    match goal with |- context [run _ ?w2] =>
      specialize (IH (S i) w2 ltac:(lia)); set (W := w2) in *
    end.
    cbv zeta in IH. destruct IH as [Hr Hn].
    { intros k Hk. subst W. cbn [env fetches set_now log count_fetch].
      replace (S (fetches w) + k) with (fetches w + S k) by lia.
      apply Hdead. lia. }
    split; [exact Hr |]. rewrite Hn. subst W.
    cbn [now set_now log count_fetch retry_budget].
    unfold AmploPayService.retryDelay. lia.
Qed.

Lemma instant_eff {X} (e : Eff X) (w : World) :
  io_only e = false ->
  now (if suspends e
       then set_now (fun t => (t + (handle_eff e w).2)%Z) (handle_eff e w).1.1
       else (handle_eff e w).1.1) = now w.
Proof.
  intros He. destruct e; try discriminate He; cbn; lia || reflexivity.
Qed.

Lemma run_instant {R} (m : Async R) (w : World) :
  all_effects (fun X e => io_only e = false) m -> now (run m w).1 = now w.
Proof.
  intros Hm. revert w.
  induction Hm as [r | e | X e k He Hk IH]; intros w; cbn [run fst]; auto.
  pose proof (instant_eff e w He) as H.
  destruct (handle_eff e w) as [[w' x] d]. cbn [fst snd] in H.
  rewrite IH. exact H.
Qed.

Lemma createPayment_elapsed (request : CreatePaymentRequest.t) (w : World) :
  let r := run (AmploPayService.createPayment request) w in
  (now w <= now r.1 <= now w + 66000)%Z /\
  (truthy (apiKey w) = true -> window_origin (env w) <> None ->
   (forall k, k <= 3 -> network (env w) (fetches w + k) = NoAnswer) ->
   r.2 = inl AmploPayService.timeoutError /\ now r.1 = (now w + 66000)%Z).
Proof.
  cbv zeta. unfold AmploPayService.createPayment.
  rewrite run_bind. cbn [run perform handle_eff suspends fst snd].
  destruct (truthy (apiKey w)) eqn:Ekey; cbn [negb];
    [| split; [cbn; lia | discriminate]].
  rewrite run_try_catch, run_bind.
  cbn [run perform handle_eff suspends fst snd].
  rewrite run_bind.
  cbn [run perform handle_eff suspends fst snd].
  destruct (window_origin (env w)) as [origin |];
    [| split; [cbn; lia | congruence]].
  rewrite run_bind. unfold AmploPayService.fetchWithRetry.
  match goal with |- context [run (AmploPayService.attempts ?rq ?n (S ?n) 0) w] =>
    pose proof (attempts_elapsed rq n n 0 w eq_refl) as Hel;
    pose proof (attempts_dead_network rq n n 0 w eq_refl) as Hdead;
    destruct (run (AmploPayService.attempts rq n (S n) 0) w) as [w1 [e | response]]
  end; cbv zeta in Hel, Hdead; cbn [fst snd] in Hel, Hdead;
    change (retry_budget AmploPayService.maxRetries 0) with 66000%Z in *.
  - split.
    + destruct e; cbn; lia.
    + intros _ _ Hn. destruct (Hdead Hn) as [[= ->] Hnow]. split; [reflexivity |].
      exact Hnow.
  - split.
    + destruct (ok response); cbn [negb].
      * rewrite run_bind. cbn [run perform handle_eff suspends fst snd].
        destruct (json_payment response) as [a |]; [| cbn; lia].
        rewrite run_bind.
        destruct (negb (truthy_opt (AmploPayResponse.qr_code_url a))
                  && truthy (AmploPayResponse.pix_code a)).
        -- unfold AmploPayService.generateQRCodeImage. simpl.
           destruct (qrcode (env w1) (AmploPayResponse.pix_code a)); simpl; lia.
        -- simpl. lia.
      * unfold AmploPayService.rejectResponse. simpl.
        repeat (match goal with |- context [if ?b then _ else _] => destruct b end;
                simpl; try lia).
    + intros _ _ Hn. destruct (Hdead Hn) as [[=] _].
Qed.




(** ** What [createPayment] does with the gateway's answer *)

Lemma run_fetch_answered (req : Request) (t : Z) (response : Response) (w : World) :
  network (env w) (fetches w) = Responds t response ->
  (Z.max 0 t < 15000)%Z ->
  run (AmploPayService.fetchWithRetry req AmploPayService.maxRetries) w
    = (answered req t w, inr response).
Proof.
  intros Hnet Ht. unfold AmploPayService.fetchWithRetry.
  rewrite run_attempts_S, Hnet. cbn [settle].
  apply Z.ltb_lt in Ht. rewrite Ht. reflexivity.
Qed.

(** X6. An HTTP error answer is not retried: when the first attempt is
    answered with a non-2xx status, [createPayment] fails after that one
    attempt, with the invalid-key error for 401, the access-denied error
    for 403, the CORS error for status 0, the server error for 500 and
    above, and otherwise with the gateway's own detail. *)
Theorem createPayment_rejected (request : CreatePaymentRequest.t) (w : World)
    (t : Z) (response : Response) :
  truthy (apiKey w) = true -> window_origin (env w) <> None ->
  network (env w) (fetches w) = Responds t response ->
  (Z.max 0 t < 15000)%Z -> ok response = false ->
  let r := run (AmploPayService.createPayment request) w in
  fetches r.1 = S (fetches w) /\
  now r.1 = (now w + Z.max 0 t)%Z /\
  exists e, r.2 = inl e /\
    (status response = 401%Z -> e = AmploPayService.invalidKeyError) /\
    (status response = 403%Z -> e = AmploPayService.forbiddenError) /\
    (status response = 0%Z -> e = AmploPayService.corsStatusError) /\
    ((500 <= status response)%Z -> e = AmploPayService.serverError) /\
    ((status response < 500)%Z -> status response <> 401%Z ->
     status response <> 403%Z -> status response <> 0%Z ->
     e = Error ("Erro ao processar pagamento: " ++ error_detail response)).
Proof.
  intros Hkey Hwin Hnet Ht Hok. cbv zeta.
  unfold AmploPayService.createPayment.
  rewrite run_bind. cbn [run perform handle_eff suspends fst snd].
  rewrite Hkey. cbn [negb].
  rewrite run_try_catch, run_bind.
  cbn [run perform handle_eff suspends fst snd].
  rewrite run_bind.
  cbn [run perform handle_eff suspends fst snd].
  destruct (window_origin (env w)) as [origin |]; [| congruence].
  rewrite run_bind.
  rewrite (run_fetch_answered _ t response w Hnet Ht).
  rewrite Hok. cbn [negb].
  unfold AmploPayService.rejectResponse, error_detail.
  cbn [bind perform run handle_eff suspends].
  destruct (Z.eqb_spec (status response) 401) as [E401 | N401].
  { cbn. split; [reflexivity |]. split; [lia |]. eexists. split; [reflexivity |].
    repeat split; intros; try reflexivity; lia. }
  destruct (Z.eqb_spec (status response) 403) as [E403 | N403].
  { cbn. split; [reflexivity |]. split; [lia |]. eexists. split; [reflexivity |].
    repeat split; intros; try reflexivity; lia. }
  destruct (Z.eqb_spec (status response) 0) as [E0 | N0].
  { cbn. split; [reflexivity |]. split; [lia |]. eexists. split; [reflexivity |].
    repeat split; intros; try reflexivity; lia. }
  destruct (Z.geb_spec (status response) 500) as [G | L].
  { cbn. split; [reflexivity |]. split; [lia |]. eexists. split; [reflexivity |].
    repeat split; intros; try reflexivity; lia. }
  cbn. split; [reflexivity |]. split; [lia |]. eexists. split; [reflexivity |].
  repeat split; intros; try reflexivity; lia.
Qed.

Lemma createPayment_rejected_witness :
  let r := run (AmploPayService.createPayment sample_request) failing_world in
  fetches r.1 = S (fetches failing_world) /\
  now r.1 = (now failing_world + Z.max 0 250)%Z /\
  exists e, r.2 = inl e /\
    (status unavailable = 401%Z -> e = AmploPayService.invalidKeyError) /\
    (status unavailable = 403%Z -> e = AmploPayService.forbiddenError) /\
    (status unavailable = 0%Z -> e = AmploPayService.corsStatusError) /\
    ((500 <= status unavailable)%Z -> e = AmploPayService.serverError) /\
    ((status unavailable < 500)%Z -> status unavailable <> 401%Z ->
     status unavailable <> 403%Z -> status unavailable <> 0%Z ->
     e = Error ("Erro ao processar pagamento: " ++ error_detail unavailable)).
Proof.
  apply (createPayment_rejected sample_request failing_world 250 unavailable);
    [reflexivity | discriminate | reflexivity | reflexivity | reflexivity].
Defined.

(** X7. On a 2xx answer with a readable body, [createPayment] caches and
    returns a record whose id, amount, status, Pix code and dates are the
    gateway's and whose description and tickets are the request's,
    replacing whatever was cached under that id (listeners stay). The QR
    image is the gateway's URL when it sent one; otherwise it is encoded
    from the Pix code, and if the encoder fails the call fails and caches
    nothing; with neither URL nor Pix code the record has no image. *)
Theorem createPayment_stores (request : CreatePaymentRequest.t) (w : World)
    (t : Z) (response : Response) (a : AmploPayResponse.t) :
  truthy (apiKey w) = true -> window_origin (env w) <> None ->
  network (env w) (fetches w) = Responds t response ->
  (Z.max 0 t < 15000)%Z -> ok response = true ->
  json_payment response = Some a ->
  let r := run (AmploPayService.createPayment request) w in
  let url := AmploPayResponse.qr_code_url a in
  let pix := AmploPayResponse.pix_code a in
  let stored_with qr :=
    r.2 = inr (length (heap w)) /\
    deref r.1 (length (heap w)) = Some (record_of request a qr) /\
    cached r.1 (AmploPayResponse.id a) = Some (record_of request a qr) /\
    statusCallbacks r.1 = statusCallbacks w in
  if truthy_opt url then stored_with url
  else if truthy pix then
    match qrcode (env w) pix with
    | Some image => stored_with (Some image)
    | None => r.2 = inl (Error "Erro ao gerar QR Code") /\
              payments r.1 = payments w /\ heap r.1 = heap w
    end
  else stored_with url.
Proof.
  intros Hkey Hwin Hnet Ht Hok Hjson. cbv zeta.
  unfold AmploPayService.createPayment.
  rewrite run_bind. cbn [run perform handle_eff suspends fst snd].
  rewrite Hkey. cbn [negb].
  rewrite run_try_catch, run_bind.
  cbn [run perform handle_eff suspends fst snd].
  rewrite run_bind.
  cbn [run perform handle_eff suspends fst snd].
  destruct (window_origin (env w)) as [origin |]; [| congruence].
  rewrite run_bind.
  rewrite (run_fetch_answered _ t response w Hnet Ht).
  rewrite Hok. cbn [negb].
  rewrite run_bind. cbn [run perform handle_eff suspends fst snd].
  rewrite Hjson. rewrite run_bind.
  assert (Hstore : forall qr W,
    heap W = heap w -> payments W = payments w ->
    statusCallbacks W = statusCallbacks w ->
    let W' := set_payments (insert (AmploPayResponse.id a) (length (heap W)))
                (set_heap (fun h => (h ++ [record_of request a qr])%list) W) in
    deref W' (length (heap w)) = Some (record_of request a qr) /\
    cached W' (AmploPayResponse.id a) = Some (record_of request a qr) /\
    statusCallbacks W' = statusCallbacks w).
  { intros qr W Hh Hp Hc. cbv zeta.
    assert (Hd : deref (set_payments (insert (AmploPayResponse.id a) (length (heap W)))
                   (set_heap (fun h => (h ++ [record_of request a qr])%list) W))
                   (length (heap w)) = Some (record_of request a qr)).
    { unfold deref. cbn. rewrite <- Hh. apply list_lookup_middle. reflexivity. }
    split; [exact Hd |]. split; [| exact Hc].
    unfold cached. cbn [payments set_payments set_heap].
    rewrite lookup_insert_eq. cbn [mbind option_bind]. rewrite Hh. exact Hd. }
  destruct (truthy_opt (AmploPayResponse.qr_code_url a)) eqn:Eurl; cbn [negb andb].
  - cbn [run bind perform handle_eff suspends fst snd].
    split; [reflexivity |]. apply (Hstore _ _ eq_refl eq_refl eq_refl).
  - destruct (truthy (AmploPayResponse.pix_code a)) eqn:Epix.
    + unfold AmploPayService.generateQRCodeImage.
      cbn [run bind perform handle_eff suspends fst snd env set_now answered log count_fetch].
      destruct (qrcode (env w) (AmploPayResponse.pix_code a)) as [image |].
      * cbn [run bind perform handle_eff suspends fst snd].
        split; [reflexivity |]. apply (Hstore _ _ eq_refl eq_refl eq_refl).
      * cbn. repeat split.
    + cbn [run bind perform handle_eff suspends fst snd].
      split; [reflexivity |]. apply (Hstore _ _ eq_refl eq_refl eq_refl).
Qed.

Lemma createPayment_stores_witness :
  let r := run (AmploPayService.createPayment sample_request) paying_world in
  exists a image,
    json_payment (created_response "pending") = Some a /\
    r.2 = inr 0 /\
    deref r.1 0 = Some (record_of sample_request a (Some image)) /\
    cached r.1 "pay_9" = Some (record_of sample_request a (Some image)) /\
    statusCallbacks r.1 = statusCallbacks paying_world.
Proof.
  eexists _, _. split; [reflexivity |].
  exact (createPayment_stores sample_request paying_world 80
           (created_response "pending") _
           eq_refl ltac:(discriminate) eq_refl eq_refl eq_refl eq_refl).
Defined.

(** ** The mock service *)

Lemma charAt_below (bound i : nat) :
  0 < bound -> bound <= 36 ->
  exists c, MockPaymentService.charAt (i mod bound) MockPaymentService.chars
              = String c EmptyString /\
            is_code_char c = true /\
            (bound <= 10 -> is_digit c = true).
Proof.
  intros Hpos Hle.
  assert (Hlt : i mod bound < bound) by (apply Nat.mod_upper_bound; lia).
  assert (Hall : forall k, k < 36 ->
            exists c, MockPaymentService.charAt k MockPaymentService.chars
                        = String c EmptyString /\
                      is_code_char c = true /\ (k < 10 -> is_digit c = true)).
  { intros k Hk.
    do 36 (destruct k as [| k];
           [eexists; split; [reflexivity |]; split; [reflexivity |];
            intros; first [reflexivity | lia] |]).
    lia. }
  destruct (Hall (i mod bound) ltac:(lia)) as (c & Hc & Hcode & Hdig).
  exists c. split; [exact Hc |]. split; [exact Hcode |]. intros. apply Hdig. lia.
Qed.

Lemma string_app_assoc (a b c : string) : (a ++ b) ++ c = a ++ (b ++ c).
Proof.
  induction a as [| x a IH]; [reflexivity |].
  change (String x ((a ++ b) ++ c) = String x (a ++ (b ++ c))).
  f_equal. exact IH.
Qed.

Lemma string_app_nil (a : string) : a ++ "" = a.
Proof.
  induction a as [| x a IH]; [reflexivity |].
  change (String x (a ++ "") = String x a). f_equal. exact IH.
Qed.

Lemma string_length_app (a b : string) :
  String.length (a ++ b) = String.length a + String.length b.
Proof.
  induction a as [| x a IH]; [reflexivity |].
  change (S (String.length (a ++ b)) = S (String.length a + String.length b)).
  f_equal. exact IH.
Qed.

(** [n] random characters below [bound] are appended, one draw each. *)
Lemma appendRandom_shape (n bound : nat) (result : string) (w : World) :
  0 < bound -> bound <= 36 ->
  exists s,
    run (MockPaymentService.appendRandom n bound result) w
      = (bump_random n w, inr (result ++ s)) /\
    String.length s = n /\
    Forall (fun c => is_code_char c = true) (list_ascii_of_string s) /\
    (bound <= 10 -> Forall (fun c => is_digit c = true) (list_ascii_of_string s)).
Proof.
  intros Hpos Hle. revert result w. induction n as [| n IH]; intros result w.
  - exists "". cbn [MockPaymentService.appendRandom run].
    rewrite bump_random_0, string_app_nil. repeat split; constructor.
  - cbn [MockPaymentService.appendRandom bind perform run handle_eff suspends].
    destruct (charAt_below bound (random (env w) (randoms w)) Hpos Hle)
      as (c & Hc & Hcode & Hdig).
    rewrite Hc.
    destruct (IH (result ++ String c EmptyString) (count_random w))
      as (s & Hrun & Hlen & Hall & Hd).
    exists (String c s). rewrite Hrun. split.
    + rewrite string_app_assoc.
      change (String c EmptyString ++ s) with (String c s).
      unfold bump_random, count_random. cbn. do 2 f_equal. f_equal. lia.
    + split; [cbn; lia |]. split; [constructor; assumption |].
      intros Hb. constructor; auto.
Qed.

(** X8. A mock Pix code is the fixed header, 32 characters of the
    36-letter alphabet, the fixed merchant block and 4 digits: 145
    characters, whatever the random source yields, for 36 draws. *)
Theorem generateMockPixCode_shape (w : World) :
  exists body check,
    run MockPaymentService.generateMockPixCode w
      = (bump_random 36 w, inr (pix_prefix ++ body ++ pix_middle ++ check)) /\
    String.length body = 32 /\ String.length check = 4 /\
    Forall (fun c => is_code_char c = true) (list_ascii_of_string body) /\
    Forall (fun c => is_digit c = true) (list_ascii_of_string check) /\
    String.length (pix_prefix ++ body ++ pix_middle ++ check) = 145.
Proof.
  unfold MockPaymentService.generateMockPixCode. rewrite run_bind.
  destruct (appendRandom_shape 32 (String.length MockPaymentService.chars)
              "00020126580014BR.GOV.BCB.PIX0136" w ltac:(cbn; lia) ltac:(cbn; lia))
    as (body & -> & Hlen & Hall & _).
  match goal with |- context [MockPaymentService.appendRandom 4 10 ?r] =>
    destruct (appendRandom_shape 4 10 r (bump_random 32 w) ltac:(lia) ltac:(lia))
      as (check & -> & Hlen' & _ & Hdig)
  end.
  exists body, check. split.
  - unfold pix_prefix, pix_middle. rewrite !string_app_assoc. reflexivity.
  - repeat (split; [assumption || (apply Hdig; lia) |]).
    rewrite !string_length_app, Hlen, Hlen'. reflexivity.
Qed.

(** X9. The mock's [createPayment] needs neither credential nor network:
    in any world it makes no request and settles after its one-second
    delay. It fails only when the QR encoder fails, with the QR error,
    caching nothing and setting no timer; otherwise it caches a pending
    record under a fresh id and sets exactly one timer, the approval due
    10 s later. *)
Theorem mock_createPayment_offline (request : CreatePaymentRequest.t) (w : World) :
  let r := run (MockPaymentService.createPayment request) w in
  fetches r.1 = fetches w /\
  now r.1 = (now w + 1000)%Z /\
  match r.2 with
  | inl e =>
      e = Error "Erro ao gerar QR Code" /\
      payments r.1 = payments w /\ heap r.1 = heap w /\ timers r.1 = timers w
  | inr l =>
      exists p,
        deref r.1 l = Some p /\
        cached r.1 (PaymentData.id p) = Some p /\
        PaymentData.id p = uuid (env w) (uuids w) /\
        PaymentData.status p = "pending" /\
        PaymentData.amount p = CreatePaymentRequest.amount request /\
        timers r.1 = (timers w ++ [ {| t_handle := next_handle w;
                                       t_due := (now w + 11000)%Z;
                                       t_period := None;
                                       t_action := MockApprove (PaymentData.id p) |} ])%list
  end.
Proof.
  cbv zeta. unfold MockPaymentService.createPayment.
  rewrite run_bind. cbn [run perform handle_eff suspends].
  rewrite run_bind. cbn [run perform handle_eff suspends].
  rewrite run_bind.
  match goal with |- context [run MockPaymentService.generateMockPixCode ?w0] =>
    destruct (run_generateMockPixCode w0) as (pixCode & -> & Htruthy)
  end.
  rewrite run_bind. unfold MockPaymentService.generateQRCodeImage.
  cbn [bind perform run handle_eff suspends].
  cbn [env bump_random count_uuid set_now log].
  destruct (qrcode (env w) pixCode) as [image |].
  - cbn. split; [reflexivity |]. split; [lia |]. eexists.
    split; [apply list_lookup_middle; reflexivity |].
    split.
    { unfold cached. cbn. rewrite lookup_insert_eq. cbn.
      apply list_lookup_middle. reflexivity. }
    repeat split. unfold MockPaymentService.approvalDelay. do 3 f_equal. lia.
  - cbn. split; [reflexivity |]. split; [lia |]. repeat split.
Qed.

(** ** The cart *)

Lemma same_type_spec (a b : App.TicketType) : App.same_type a b = true <-> a = b.
Proof. destruct a, b; cbn; split; congruence. Qed.

(** X10. [updateTicketCount] changes the count of the chosen ticket type
    only, never makes a count negative, leaves a count of zero at zero
    when decrementing, and undoes an increment by a decrement. *)
Theorem updateTicketCount_counts (ticketType : App.TicketType)
    (prev : App.TicketCount) :
  (forall increment other, other <> ticketType ->
     App.updateTicketCount ticketType increment prev other = prev other) /\
  (forall increment,
     (0 <= App.updateTicketCount ticketType increment prev ticketType)%Z) /\
  ((prev ticketType <= 0)%Z ->
     App.updateTicketCount ticketType false prev ticketType = 0%Z) /\
  ((0 <= prev ticketType)%Z ->
     App.updateTicketCount ticketType true prev ticketType
       = (prev ticketType + 1)%Z /\
     App.updateTicketCount ticketType false
       (App.updateTicketCount ticketType true prev) ticketType = prev ticketType) /\
  (valid_cart prev ->
     forall increment, valid_cart (App.updateTicketCount ticketType increment prev)).
Proof.
  assert (Hself : App.same_type ticketType ticketType = true)
    by (apply same_type_spec; reflexivity).
  unfold App.updateTicketCount. rewrite !Hself.
  split; [| split; [| split; [| split]]].
  - intros increment other Hne.
    destruct (App.same_type other ticketType) eqn:E; [| reflexivity].
    apply same_type_spec in E. congruence.
  - intros increment. lia.
  - intros Hle. lia.
  - intros Hge. split; lia.
  - intros Hvalid increment t.
    destruct (App.same_type t ticketType); [lia | apply Hvalid].
Qed.

Lemma valid_noTickets : valid_cart App.noTickets.
Proof. intros t. unfold App.noTickets. lia. Qed.

Lemma valid_sample_cart : valid_cart sample_cart.
Proof.
  unfold sample_cart.
  destruct (updateTicketCount_counts App.vipInteira
              (App.updateTicketCount App.vipInteira true App.noTickets))
    as (_ & _ & _ & _ & H).
  apply H.
  destruct (updateTicketCount_counts App.vipInteira App.noTickets)
    as (_ & _ & _ & _ & H0).
  apply H0, valid_noTickets.
Qed.

Lemma updateTicketCount_counts_witness :
  App.updateTicketCount App.vipMeia false App.noTickets App.vipMeia = 0%Z /\
  (App.updateTicketCount App.vipInteira true sample_cart App.vipInteira = 3%Z /\
   App.updateTicketCount App.vipInteira false
     (App.updateTicketCount App.vipInteira true sample_cart) App.vipInteira = 2%Z) /\
  valid_cart (App.updateTicketCount App.vipInteira false sample_cart).
Proof.
  split; [| split].
  - destruct (updateTicketCount_counts App.vipMeia App.noTickets)
      as (_ & _ & H & _).
    apply H. vm_compute. discriminate.
  - destruct (updateTicketCount_counts App.vipInteira sample_cart)
      as (_ & _ & _ & H & _).
    apply H. vm_compute. discriminate.
  - destruct (updateTicketCount_counts App.vipInteira sample_cart)
      as (_ & _ & _ & _ & H).
    apply H, valid_sample_cart.
Defined.


(** X12. For a cart without negative counts, the amount charged is the
    sum of the line totals and the ticket count is the sum of the line
    quantities; the cart has a line exactly when it has a ticket, and then
    the amount is positive. *)
Theorem cart_totals_agree (ticketCounts : App.TicketCount) :
  valid_cart ticketCounts ->
  App.getTotalValue ticketCounts
    = sum_of TicketSelection.totalPrice (App.getTicketSelections ticketCounts) /\
  App.getTotalTickets ticketCounts
    = sum_of TicketSelection.quantity (App.getTicketSelections ticketCounts) /\
  ((0 < App.getTotalTickets ticketCounts)%Z <->
   App.getTicketSelections ticketCounts <> []) /\
  ((0 < App.getTotalTickets ticketCounts)%Z ->
   (App.getTotalTickets ticketCounts <= App.getTotalValue ticketCounts)%Z).
Proof.
  intros Hvalid.
  pose proof (Hvalid App.vipMeia). pose proof (Hvalid App.vipInteira).
  pose proof (Hvalid App.backstageMeia). pose proof (Hvalid App.backstageInteira).
  pose proof (Hvalid App.influencersMeia). pose proof (Hvalid App.influencersInteira).
  unfold App.getTotalValue, App.getTotalTickets, App.getTicketSelections,
    App.entries, App.ticketTypes, sum_of.
  cbn [List.map fold_left fst snd App.ticketPrices].
  destruct (Z.gtb_spec (ticketCounts App.vipMeia) 0),
           (Z.gtb_spec (ticketCounts App.vipInteira) 0),
           (Z.gtb_spec (ticketCounts App.backstageMeia) 0),
           (Z.gtb_spec (ticketCounts App.backstageInteira) 0),
           (Z.gtb_spec (ticketCounts App.influencersMeia) 0),
           (Z.gtb_spec (ticketCounts App.influencersInteira) 0);
    cbn [app fold_right TicketSelection.totalPrice TicketSelection.quantity];
    (split; [lia |]; split; [lia |]; split;
     [split; [intros Hpos; (discriminate || (exfalso; lia))
             | intros Hne; (lia || (exfalso; apply Hne; reflexivity))]
     | intros; lia]).
Qed.

Lemma cart_totals_agree_witness :
  App.getTotalValue sample_cart
    = sum_of TicketSelection.totalPrice (App.getTicketSelections sample_cart) /\
  App.getTotalTickets sample_cart
    = sum_of TicketSelection.quantity (App.getTicketSelections sample_cart) /\
  ((0 < App.getTotalTickets sample_cart)%Z <->
   App.getTicketSelections sample_cart <> []) /\
  ((0 < App.getTotalTickets sample_cart)%Z ->
   (App.getTotalTickets sample_cart <= App.getTotalValue sample_cart)%Z).
Proof. exact (cart_totals_agree sample_cart valid_sample_cart). Defined.

(** ** Advancing to payment *)

Lemma handleAdvance_charge (s : App.State) (w : World) :
  (0 < App.getTotalTickets (App.ticketCounts s))%Z ->
  exists s',
    run (App.handleAdvance s) w
      = ((run (AmploPayService.createPixPayment
                 (App.getTotalValue (App.ticketCounts s))
                 (App.description (App.ticketCounts s))
                 (App.getTicketSelections (App.ticketCounts s))) w).1, inr s') /\
    App.isProcessingPayment s' = false /\
    App.ticketCounts s' = App.ticketCounts s /\
    match (run (AmploPayService.createPixPayment
                  (App.getTotalValue (App.ticketCounts s))
                  (App.description (App.ticketCounts s))
                  (App.getTicketSelections (App.ticketCounts s))) w).2 with
    | inr l =>
        App.modalOpen s' = true /\ App.modalPayment s' = Some l /\
        App.alerts s' = App.alerts s
    | inl e =>
        App.modalOpen s' = App.modalOpen s /\
        App.modalPayment s' = App.modalPayment s /\
        App.alerts s' = (App.alerts s ++ [App.alertText e])%list
    end.
Proof.
  intros Hpos. unfold App.handleAdvance.
  replace (App.getTotalTickets (App.ticketCounts s) >? 0)%Z with true
    by (symmetry; rewrite Z.gtb_ltb; apply Z.ltb_lt; exact Hpos).
  rewrite run_bind, run_try_catch, run_bind.
  destruct (run (AmploPayService.createPixPayment _ _ _) w) as [w1 [e | l]];
    cbn [run fst snd]; eexists; (split; [reflexivity |]); cbn; auto.
Qed.

(** X13. [handleAdvance] does nothing on an empty cart: no call is made
    and the page is unchanged. Otherwise it makes one [createPixPayment]
    call for the cart's amount and lines and never throws: on success the
    modal is opened on the returned record and nothing is alerted; on
    failure one alert is shown and the modal is left as it was. Either
    way the processing flag ends cleared and the cart is untouched. *)
Theorem handleAdvance_outcome (s : App.State) (w : World) :
  let cart := App.ticketCounts s in
  ((App.getTotalTickets cart <= 0)%Z -> run (App.handleAdvance s) w = (w, inr s)) /\
  ((0 < App.getTotalTickets cart)%Z ->
   let c := run (AmploPayService.createPixPayment (App.getTotalValue cart)
                   (App.description cart) (App.getTicketSelections cart)) w in
   exists s',
     run (App.handleAdvance s) w = (c.1, inr s') /\
     App.isProcessingPayment s' = false /\
     App.ticketCounts s' = cart /\
     match c.2 with
     | inr l =>
         App.modalOpen s' = true /\ App.modalPayment s' = Some l /\
         App.alerts s' = App.alerts s
     | inl e =>
         App.modalOpen s' = App.modalOpen s /\
         App.modalPayment s' = App.modalPayment s /\
         App.alerts s' = (App.alerts s ++ [App.alertText e])%list
     end).
Proof.
  cbv zeta. unfold App.handleAdvance. split.
  - intros Hle.
    replace (App.getTotalTickets (App.ticketCounts s) >? 0)%Z with false
      by (symmetry; rewrite Z.gtb_ltb; apply Z.ltb_ge; exact Hle).
    reflexivity.
  - intros Hpos. exact (handleAdvance_charge s w Hpos).
Qed.

Lemma handleAdvance_outcome_witness :
  run (App.handleAdvance
         {| App.ticketCounts := App.noTickets; App.modalOpen := false;
            App.modalPayment := None; App.isProcessingPayment := false;
            App.alerts := [] |}) paying_world
    = (paying_world,
       inr {| App.ticketCounts := App.noTickets; App.modalOpen := false;
              App.modalPayment := None; App.isProcessingPayment := false;
              App.alerts := [] |}) /\
  exists s',
    (run (App.handleAdvance sample_page) paying_world).2 = inr s' /\
    App.isProcessingPayment s' = false /\
    App.modalOpen s' = true /\ App.modalPayment s' = Some 0 /\
    App.alerts s' = [].
Proof.
  split.
  - destruct (handleAdvance_outcome
                {| App.ticketCounts := App.noTickets; App.modalOpen := false;
                   App.modalPayment := None; App.isProcessingPayment := false;
                   App.alerts := [] |} paying_world) as [H _].
    apply H. vm_compute. discriminate.
  - destruct (handleAdvance_outcome sample_page paying_world) as [_ H].
    destruct H as (s' & Hrun & Hp & _ & Hm); [vm_compute; reflexivity |].
    exists s'. rewrite Hrun. split; [reflexivity |]. split; [exact Hp |].
    exact Hm.
Defined.

(** X14. What the buyer is told. With no credential configured,
    advancing with a non-empty cart makes no request at all and alerts the
    configuration error followed by the API-key instructions. When the
    gateway never answers, the alert comes 66 s later: the timeout message
    followed by the check-your-connection instructions. *)
Theorem handleAdvance_remediation (s : App.State) (w : World) :
  (0 < App.getTotalTickets (App.ticketCounts s))%Z ->
  (truthy (apiKey w) = false ->
   exists s',
     run (App.handleAdvance s) w = (w, inr s') /\
     App.modalOpen s' = App.modalOpen s /\
     App.alerts s' =
       (App.alerts s ++
        [ ("❌ Erro no pagamento:" ++ App.nl ++ App.nl ++
           "API Key da Amplo Pay não configurada. Configure VITE_AMPLO_PAY_API_KEY no arquivo .env"
           ++ App.keyHelp)%string ])%list) /\
  (truthy (apiKey w) = true -> window_origin (env w) <> None ->
   (forall k, k <= 3 -> network (env w) (fetches w + k) = NoAnswer) ->
   exists s',
     (run (App.handleAdvance s) w).2 = inr s' /\
     now (run (App.handleAdvance s) w).1 = (now w + 66000)%Z /\
     App.modalOpen s' = App.modalOpen s /\
     App.alerts s' =
       (App.alerts s ++
        [ ("❌ Erro no pagamento:" ++ App.nl ++ App.nl ++
           "Timeout: A conexão demorou muito para responder. Verifique sua internet."
           ++ App.connectionHelp)%string ])%list).
Proof.
  intros Hpos.
  destruct (handleAdvance_charge s w Hpos) as (s' & Hrun & _ & _ & Hm).
  unfold AmploPayService.createPixPayment in *.
  split.
  - intros Hkey.
    rewrite (run_createPayment_without_key _ w Hkey) in *. cbn [fst snd] in *.
    exists s'. split; [exact Hrun |]. destruct Hm as (Ho & _ & Ha).
    split; [exact Ho |]. rewrite Ha. reflexivity.
  - intros Hkey Hwin Hdead.
    match type of Hrun with context [AmploPayService.createPayment ?rq] =>
      destruct (createPayment_elapsed rq w) as [_ Hel]
    end.
    cbv zeta in Hel. destruct (Hel Hkey Hwin Hdead) as [He Hnow].
    rewrite He in Hm. exists s'. rewrite Hrun. cbn [fst snd].
    split; [reflexivity |]. split; [exact Hnow |].
    destruct Hm as (Ho & _ & Ha). split; [exact Ho |]. rewrite Ha. reflexivity.
Qed.

Lemma handleAdvance_remediation_witness :
  (exists s',
     run (App.handleAdvance sample_page) fresh_keyless = (fresh_keyless, inr s') /\
     App.modalOpen s' = false /\
     App.alerts s' =
       [ "❌ Erro no pagamento:" ++ App.nl ++ App.nl ++
         "API Key da Amplo Pay não configurada. Configure VITE_AMPLO_PAY_API_KEY no arquivo .env"
         ++ App.keyHelp ]) /\
  (exists s',
     (run (App.handleAdvance sample_page) sample_world).2 = inr s' /\
     now (run (App.handleAdvance sample_page) sample_world).1 = 66000%Z /\
     App.modalOpen s' = false /\
     App.alerts s' =
       [ "❌ Erro no pagamento:" ++ App.nl ++ App.nl ++
         "Timeout: A conexão demorou muito para responder. Verifique sua internet."
         ++ App.connectionHelp ]).
Proof.
  split.
  - destruct (handleAdvance_remediation sample_page fresh_keyless) as [H _];
      [vm_compute; reflexivity |].
    apply H. reflexivity.
  - destruct (handleAdvance_remediation sample_page sample_world) as [_ H];
      [vm_compute; reflexivity |].
    apply H; [reflexivity | discriminate | reflexivity].
Defined.

(** ** The countdown *)

Lemma two_digits_length :
  Forall (fun s => String.length s = 2) two_digits.
Proof. vm_compute. repeat constructor. Qed.

Lemma two_digits_NoDup : NoDup two_digits.
Proof. refine (bool_decide_unpack (NoDup two_digits) _). vm_compute. exact I. Qed.

Lemma two_digits_lookup (n : Z) :
  (0 <= n < 100)%Z ->
  two_digits !! Z.to_nat n = Some (PaymentModal.padStart2 (pretty n)).
Proof.
  intros Hn. unfold two_digits.
  rewrite list_lookup_fmap, lookup_seq_lt by lia. cbn [fmap option_fmap option_map].
  rewrite Nat.add_0_l, Z2Nat.id by lia. reflexivity.
Qed.

Lemma string_app_inv (a a' b b' : string) :
  String.length a = String.length a' -> a ++ b = a' ++ b' -> a = a' /\ b = b'.
Proof.
  revert a'. induction a as [| x a IH]; intros [| x' a'] Hlen Heq;
    try discriminate Hlen.
  - split; [reflexivity | exact Heq].
  - change (String x (a ++ b) = String x' (a' ++ b')) in Heq.
    injection Heq as -> Heq. injection Hlen as Hlen.
    destruct (IH a' Hlen Heq) as [-> ->]. split; reflexivity.
Qed.

(** X15. For any time below 100 minutes the countdown text is two digits
    of minutes, a colon and two digits of seconds (five characters), and
    different times give different texts. *)
Theorem formatTime_clock (seconds : Z) :
  (0 <= seconds < 6000)%Z ->
  String.length (PaymentModal.formatTime seconds) = 5 /\
  (exists mm ss,
     PaymentModal.formatTime seconds = mm ++ ":" ++ ss /\
     two_digits !! Z.to_nat (seconds / 60) = Some mm /\
     two_digits !! Z.to_nat (seconds mod 60) = Some ss) /\
  (forall other, (0 <= other < 6000)%Z ->
     PaymentModal.formatTime other = PaymentModal.formatTime seconds ->
     other = seconds).
Proof.
  intros Hs.
  assert (Hparts : forall s, (0 <= s < 6000)%Z ->
            exists mm ss,
              PaymentModal.formatTime s = mm ++ ":" ++ ss /\
              two_digits !! Z.to_nat (s / 60) = Some mm /\
              two_digits !! Z.to_nat (s mod 60) = Some ss /\
              String.length mm = 2 /\ String.length ss = 2).
  { intros s Hr.
    assert (Hm : (0 <= s / 60 < 100)%Z)
      by (split; [apply Z.div_pos; lia | apply Z.div_lt_upper_bound; lia]).
    assert (Hq : (0 <= s mod 60 < 100)%Z)
      by (pose proof (Z.mod_pos_bound s 60 ltac:(lia)); lia).
    exists (PaymentModal.padStart2 (pretty (s / 60)%Z)),
           (PaymentModal.padStart2 (pretty (s mod 60)%Z)).
    pose proof (two_digits_lookup _ Hm) as Lm.
    pose proof (two_digits_lookup _ Hq) as Lq.
    split.
    { unfold PaymentModal.formatTime. rewrite Z.rem_mod_nonneg by lia. reflexivity. }
    split; [exact Lm |]. split; [exact Lq |].
    pose proof two_digits_length as Hlen. rewrite Forall_lookup in Hlen.
    split; eapply Hlen; eassumption. }
  destruct (Hparts seconds Hs) as (mm & ss & Hf & Lm & Lq & Hlm & Hls).
  split; [| split].
  - rewrite Hf, !string_length_app, Hlm, Hls. reflexivity.
  - exists mm, ss. auto.
  - intros other Ho Heq.
    destruct (Hparts other Ho) as (mm' & ss' & Hf' & Lm' & Lq' & Hlm' & Hls').
    rewrite Hf, Hf' in Heq.
    apply string_app_inv in Heq as [-> Heq]; [| congruence].
    apply (string_app_inv ":" ":") in Heq as [_ ->]; [| reflexivity].
    pose proof two_digits_NoDup as Hnd.
    pose proof (NoDup_lookup _ _ _ _ Hnd Lm Lm') as Hmin.
    pose proof (NoDup_lookup _ _ _ _ Hnd Lq Lq') as Hsec.
    assert (Hm : (0 <= seconds / 60)%Z) by (apply Z.div_pos; lia).
    assert (Hm' : (0 <= other / 60)%Z) by (apply Z.div_pos; lia).
    pose proof (Z.mod_pos_bound seconds 60 ltac:(lia)).
    pose proof (Z.mod_pos_bound other 60 ltac:(lia)).
    rewrite (Z.div_mod seconds 60), (Z.div_mod other 60) by lia.
    apply Z2Nat.inj in Hmin; [| lia | lia].
    apply Z2Nat.inj in Hsec; [| lia | lia].
    congruence.
Qed.

Lemma formatTime_clock_witness :
  PaymentModal.formatTime 900 = "15:00" /\
  String.length (PaymentModal.formatTime 900) = 5 /\
  (forall other, (0 <= other < 6000)%Z ->
     PaymentModal.formatTime other = PaymentModal.formatTime 900 ->
     other = 900%Z).
Proof.
  split; [reflexivity |].
  destruct (formatTime_clock 900) as (H1 & _ & H3); [lia |].
  split; [exact H1 | exact H3].
Defined.

(** X16. The expiry timer never shows a negative time and calls
    [onPaymentUpdate('expired')] exactly when less than one whole second
    is left, so up to a second before the expiry time and at every tick
    after it; while more is left, the time shown is the number of whole
    seconds left. Without an expiry date, the time shown is not touched
    and expiry is never signalled. *)
Theorem updateTimer_expiry (expiresAt now timeLeft : Z) :
  let r := PaymentModal.updateTimer (Some expiresAt) now timeLeft in
  (0 <= r.1)%Z /\
  (r.2 = true <-> (expiresAt - now < 1000)%Z) /\
  ((1000 <= expiresAt - now)%Z ->
   (r.1 * 1000 <= expiresAt - now < (r.1 + 1) * 1000)%Z) /\
  ((expiresAt - now <= 900000)%Z -> (r.1 <= 900)%Z) /\
  PaymentModal.updateTimer None now timeLeft = (timeLeft, false).
Proof.
  cbv zeta. unfold PaymentModal.updateTimer. cbn [fst snd].
  pose proof (Z.div_mod (expiresAt - now) 1000 ltac:(lia)) as Hd.
  pose proof (Z.mod_pos_bound (expiresAt - now) 1000 ltac:(lia)) as Hm.
  split; [lia |]. split; [| split; [| split]].
  - rewrite Z.leb_le. split; intros H; nia.
  - intros H. nia.
  - intros H. nia.
  - reflexivity.
Qed.

Lemma updateTimer_expiry_witness :
  let r := PaymentModal.updateTimer (Some 900000%Z) 500%Z 900%Z in
  (r.1 * 1000 <= 900000 - 500 < (r.1 + 1) * 1000)%Z /\ (r.1 <= 900)%Z.
Proof.
  destruct (updateTimer_expiry 900000 500 900) as (_ & _ & H1 & H2 & _).
  split; [apply H1 | apply H2]; lia.
Defined.

(** ** What a status query changes *)

(** X17. On a sound cache, [getPaymentStatus] changes at most the status
    of the record cached under the queried id, and only when the gateway
    reports one: that record takes the reported status whatever its
    current one (a paid record reported pending becomes pending), its
    other fields and every other record stay as they were, and no record
    is created for an id that has none. *)
Theorem getPaymentStatus_frame (paymentId : string) (w : World) :
  sound_cache w -> truthy (apiKey w) = true ->
  let r := run (AmploPayService.getPaymentStatus paymentId) w in
  cached r.1 paymentId =
    match reported_status (status_query paymentId w).2 with
    | Some s => PaymentData.set_status s <$> cached w paymentId
    | None => cached w paymentId
    end /\
  (forall other, other <> paymentId -> cached r.1 other = cached w other) /\
  payments r.1 = payments w /\
  length (heap r.1) = length (heap w).
Proof.
  intros [_ Hinj] Hkey. cbv zeta.
  destruct (getPaymentStatus_run paymentId w Hkey) as (_ & Hp & _ & Hh).
  cbv zeta in Hh. unfold cached, deref. rewrite Hp, Hh.
  destruct (reported_status _) as [s |];
    [| repeat split; reflexivity].
  destruct (payments w !! paymentId) as [l |] eqn:El;
    [| repeat split; reflexivity].
  split; [| split; [| split]].
  - cbn. apply list_lookup_alter_eq.
  - intros other Hne.
    destruct (payments w !! other) as [l' |] eqn:Eo; cbn; [| reflexivity].
    apply list_lookup_alter_ne. intros ->. apply Hne. eapply Hinj; eassumption.
  - reflexivity.
  - apply length_alter.
Qed.

Lemma getPaymentStatus_frame_witness :
  let r := run (AmploPayService.getPaymentStatus "pay_1") paid_world in
  cached r.1 "pay_1" =
    match reported_status (status_query "pay_1" paid_world).2 with
    | Some s => PaymentData.set_status s <$> cached paid_world "pay_1"
    | None => cached paid_world "pay_1"
    end /\
  (forall other, other <> "pay_1" -> cached r.1 other = cached paid_world other) /\
  payments r.1 = payments paid_world /\
  length (heap r.1) = length (heap paid_world).
Proof.
  apply (getPaymentStatus_frame "pay_1" paid_world);
    [exact sound_cache_sample | reflexivity].
Defined.

(** ** From single calls to the event loop *)

Lemma steps_front (a b c : World) : step a b -> steps b c -> steps a c.
Proof.
  intros Hab Hbc. induction Hbc as [b | b c d _ IH Hcd].
  - eapply steps_step; [apply steps_refl | exact Hab].
  - eapply steps_step; [apply IH, Hab | exact Hcd].
Qed.

Lemma calm_latency {X} (e : Eff X) (w : World) :
  calm e = true -> (0 <= (handle_eff e w).2)%Z.
Proof.
  intros He. destruct e; try discriminate He; cbn [handle_eff snd]; try lia.
  - apply Z.leb_le in He.
    pose proof (settle_bound timeout (network (env w) (fetches w)) He) as Hb.
    destruct (settle _ _) as [r d]. cbn in *. lia.
Qed.

Lemma calm_timers {X} (e : Eff X) (w : World) (P : Timer -> Prop) :
  calm e = true -> Forall P (timers w) -> Forall P (timers (handle_eff e w).1.1).
Proof.
  intros He Hall. destruct e; try discriminate He; cbn [handle_eff fst]; try exact Hall.
  - destruct (settle _ _). exact Hall.
  - cbn. apply Forall_remove_timer, Hall.
Qed.

Lemma run_clock {R} (m : Async R) (w : World) :
  all_effects (fun X e => calm e = true) m -> (now w <= now (run m w).1)%Z.
Proof.
  intros Hm. revert w.
  induction Hm as [r | e | X e k He Hk IH]; intros w; cbn [run fst]; try lia.
  pose proof (calm_latency e w He) as Hd.
  pose proof (handle_eff_loop e w) as [_ Hnow].
  destruct (handle_eff e w) as [[w' x] d]. cbn [fst snd] in *.
  destruct (suspends e).
  - specialize (IH x (set_now (fun t => (t + d)%Z) w')). cbn in IH. lia.
  - specialize (IH x w'). lia.
Qed.

Lemma wake_parked (j : Z * Async unit) (d : Z) (w : World) :
  tasks w = [] -> (0 <= d)%Z ->
  set_tasks (delete 0)
    (set_now (Z.max (now w + d))
       (set_tasks (fun q => (q ++ [j])%list) w))
  = set_now (fun t => (t + d)%Z) w.
Proof.
  intros Htasks Hd. destruct w. cbn in *. subst.
  unfold set_tasks, set_now. cbn. f_equal. lia.
Qed.

(** The event loop carries a call to its end. A call that sets no
    timer (a poll tick, [createPayment], [getPaymentStatus],
    [updatePaymentStatus]), started while no other call is suspended and
    no timer is due before it ends, is resumed turn by turn until it has
    ended, in exactly the world that running it alone gives. *)
Lemma event_loop_completes (m : Async unit) (w : World) :
  all_effects (fun X e => calm e = true) m ->
  tasks w = [] ->
  Forall (fun t => (now (run m w).1 <= t_due t)%Z) (timers w) ->
  steps (resume m w) (settled (run m w)).
Proof.
  intros Hm. revert w.
  induction Hm as [r | e | X e k He Hk IH]; intros w Htasks Hdue.
  - destruct r. apply steps_refl.
  - apply steps_refl.
  - cbn [resume run] in *.
    pose proof (calm_latency e w He) as Hd.
    pose proof (handle_eff_loop e w) as [Htk Hnow].
    pose proof (fun P => calm_timers e w P He) as Htm.
    destruct (handle_eff e w) as [[w' x] d]. cbn [fst snd] in *.
    rewrite Htasks in Htk.
    destruct (suspends e).
    + set (j := ((now w' + d)%Z, k x)).
      eapply steps_front.
      * apply (step_task _ 0 j).
        -- cbn. rewrite Htk. reflexivity.
        -- split; cbn.
           ++ specialize (Htm _ Hdue). eapply Forall_impl; [exact Htm |].
              intros t Ht. cbn beta in Ht.
              pose proof (run_clock (k x) (set_now (fun t0 => (t0 + d)%Z) w') (Hk x)) as Hc.
              cbn in Hc. lia.
           ++ rewrite Htk. repeat constructor. cbn. lia.
      * unfold wake. subst j. cbn [fst snd].
        rewrite (wake_parked _ d w' Htk Hd).
        apply IH; [exact Htk | apply (Htm _ Hdue)].
    + apply IH; [exact Htk | apply (Htm _ Hdue)].
Qed.

Lemma attempts_calm (req : Request) (retries n i : nat) :
  all_effects (fun X e => calm e = true)
    (AmploPayService.attempts req retries n i).
Proof.
  revert i. induction n as [| n IH]; intros i; simpl.
  - apply all_throw.
  - apply all_vis; [reflexivity |]. intros [error | response].
    + destruct (i =? retries)%nat; [apply all_throw |].
      apply all_vis; [reflexivity |]. intros _. apply IH.
    + apply all_ret.
Qed.

Lemma getPaymentStatus_calm (paymentId : string) :
  all_effects (fun X e => calm e = true)
    (AmploPayService.getPaymentStatus paymentId).
Proof.
  unfold AmploPayService.getPaymentStatus. footprint. apply attempts_calm.
Qed.

Lemma updatePaymentStatus_calm (paymentId status : string) :
  all_effects (fun X e => calm e = true)
    (AmploPayService.updatePaymentStatus paymentId status).
Proof. unfold AmploPayService.updatePaymentStatus. footprint. Qed.

Lemma pollTick_calm (paymentId : string) (h : handle) :
  all_effects (fun X e => calm e = true) (AmploPayService.pollTick paymentId h).
Proof.
  unfold AmploPayService.pollTick, AmploPayService.afterStatus. footprint.
  - apply getPaymentStatus_calm.
  - apply updatePaymentStatus_calm.
Qed.

(** X18. Polling a payment that is already settled stops at the first
    tick. On a page with nothing else pending, when the first tick's query
    ends with a record in a terminal status, and ends no later than the
    second tick and the ceiling are due, the event loop fires the interval
    once, resumes that tick to its end and is left with the interval
    cancelled: only the ceiling timer remains. *)
Theorem first_tick_cancels (paymentId : string) (intervalMs : Z) (w : World) :
  tasks w = [] -> timers w = [] ->
  let h := next_handle w in
  let ticking := first_tick_world paymentId intervalMs w in
  let tick := run (AmploPayService.pollTick paymentId h) ticking in
  found_terminal (run (AmploPayService.getPaymentStatus paymentId) ticking) = true ->
  (now tick.1 <= now w + 2 * Z.max 0 intervalMs)%Z ->
  (now tick.1 <= now w + AmploPayService.pollingCeiling)%Z ->
  steps (resume (AmploPayService.startPaymentPolling paymentId intervalMs) w) tick.1 /\
  cancelled h tick.1 /\
  timers tick.1 = [ceiling_timer w].
Proof.
  intros Htasks Htimers h ticking tick Hfound Hnext Hceil.
  pose proof (run_clock _ ticking (pollTick_calm paymentId h)) as Hclock.
  fold tick in Hclock.
  assert (Hticking_timers :
            timers ticking
            = [ {| t_handle := h;
                   t_due := (now w + Z.max 0 intervalMs + Z.max 0 intervalMs)%Z;
                   t_period := Some (Z.max 0 intervalMs);
                   t_action := PollTick paymentId |}; ceiling_timer w ]).
  { subst ticking. unfold first_tick_world.
    rewrite resume_startPaymentPolling. cbn. rewrite Htimers. cbn.
    destruct (decide (next_handle w = next_handle w)) as [_ | N]; [| congruence].
    destruct (decide (S (next_handle w) = next_handle w)) as [E | _]; [lia |].
    reflexivity. }
  assert (Hticking_now : now ticking = Z.max (now w + Z.max 0 intervalMs) (now w)).
  { subst ticking. unfold first_tick_world.
    rewrite resume_startPaymentPolling. reflexivity. }
  assert (Hticking_tasks : tasks ticking = []).
  { subst ticking. unfold first_tick_world.
    rewrite resume_startPaymentPolling. cbn. exact Htasks. }
  assert (Htick_timers : timers tick.1 = [ceiling_timer w] /\ tick.2 = inr tt).
  { subst tick. rewrite run_pollTick.
    destruct (run_silent _ ticking (getPaymentStatus_silent paymentId))
      as (_ & _ & _ & Hq & _).
    unfold found_terminal in Hfound.
    destruct (run (AmploPayService.getPaymentStatus paymentId) ticking)
      as [w1 [e | payment]]; cbn [fst snd] in *; [discriminate |].
    destruct payment as [l |]; [| discriminate].
    rewrite run_afterStatus. cbv zeta. rewrite Hfound.
    rewrite run_updatePaymentStatus. cbn [fst snd]. split; [| reflexivity].
    destruct (updated_timers paymentId
                (default "" (PaymentData.status <$> heap w1 !! l))
                (set_timers (remove_timer h) w1)) as (-> & _).
    cbn. rewrite Hq, Hticking_timers. unfold remove_timer, ceiling_timer. cbn.
    fold h.
    destruct (decide (h <> h)) as [N | _]; [congruence |].
    destruct (decide (S h <> h)) as [_ | N]; [reflexivity | lia]. }
  destruct Htick_timers as [Htt Hres].
  split; [| split; [| exact Htt]].
  - eapply steps_front.
    + apply (step_timer _ (poll_timer paymentId intervalMs w)).
      * rewrite resume_startPaymentPolling. cbn. apply elem_of_app. right.
        apply list_elem_of_here.
      * rewrite resume_startPaymentPolling. split; cbn.
        -- rewrite Htimers. cbn. repeat constructor; cbn; lia.
        -- rewrite Htasks. constructor.
    + unfold fire. cbn [t_action t_handle timer_body poll_timer].
      change (set_timers (rearm ?t) (set_now ?f ?x)) with ticking.
      pose proof (event_loop_completes (AmploPayService.pollTick paymentId h) ticking
                    (pollTick_calm paymentId h) Hticking_tasks) as Hrun.
      fold tick in Hrun. unfold settled in Hrun. rewrite Hres in Hrun.
      apply Hrun. rewrite Hticking_timers.
      apply Forall_cons_2; [cbn [t_due]; lia |].
      apply Forall_cons_2; [unfold ceiling_timer; cbn [t_due]; lia | constructor].
  - unfold cancelled. rewrite Htt. repeat constructor. cbn. subst h. lia.
Qed.

Lemma first_tick_cancels_witness :
  let h := next_handle paid_world in
  let tick := run (AmploPayService.pollTick "pay_1" h)
                  (first_tick_world "pay_1" 70000 paid_world) in
  steps (resume (AmploPayService.startPaymentPolling "pay_1" 70000) paid_world)
        tick.1 /\
  cancelled h tick.1 /\
  timers tick.1 = [ceiling_timer paid_world].
Proof.
  apply (first_tick_cancels "pay_1" 70000 paid_world);
    [reflexivity | reflexivity | vm_compute; reflexivity
    | vm_compute; discriminate | vm_compute; discriminate].
Defined.
